(** * Pegboard pattern engine: coordinate codec, editing operations, history

    A shallow embedding of [src/utils/coords.ts] (the key codec) and of
    [src/store.ts] (the zustand store holding the pattern, the selection and
    the undo/redo history), with the properties of the engine proved over it.

    Conventions of the embedding.
    - Grid coordinates are JavaScript numbers that the callers obtain from
      [Math.floor]/[Math.round]; they are modelled as [Z] (integer-valued
      numbers in the safe-integer range, where [x + 1] and [x - 1] are exact
      and the template literal prints plain decimal notation).
    - A [Map<string,string>] is a [gmap string string]: lookups, [set] and
      [delete] are modelled, the iteration order of a JS [Map] is not (no
      operation of the store depends on it).
    - [string | undefined] is [option string]; [===] on such values is
      equality of options. *)

From stdpp Require Import base decidable option numbers list strings pretty gmap fin_maps fin_sets.
From Stdlib Require Import ZArith QArith Lia Ascii.

Local Open Scope string_scope.
Local Open Scope list_scope.
Local Open Scope Z_scope.

(** ** Coordinate codec ([src/utils/coords.ts]) *)

Module Coords.

(** [makeKey = (x, y) => `${x},${y}`]: the decimal rendering of [x], a comma,
    the decimal rendering of [y].  [pretty] on [Z] prints a leading [-] for a
    negative number and no leading zeros, as [Number.prototype.toString]. *)
Definition makeKey (x y : Z) : string :=
  pretty x +:+ "," +:+ pretty y.

(** The result of [Number(s)] in this embedding: an integer, or [NaN].  The
    literals [Number] accepts beyond decimal integers (fractions, exponents,
    radix prefixes, [Infinity]) are outside the integer model and are mapped
    to [NaN] as well; no key produced by [makeKey] has that form. *)
Inductive jsnum : Type :=
  | Int (n : Z)
  | NaN.

#[global] Instance jsnum_eq_dec : EqDecision jsnum.
Proof. solve_decision. Defined.

(** White space that [Number] strips on both sides (the ASCII part of
    [StrWhiteSpaceChar]): space, tab, line feed, vertical tab, form feed,
    carriage return. *)
Definition is_space (c : ascii) : bool :=
  match c with
  | " " | "009" | "010" | "011" | "012" | "013" => true
  | _ => false
  end%char.

Fixpoint trim_left (s : string) : string :=
  match s with
  | EmptyString => EmptyString
  | String c s' => if is_space c then trim_left s' else s
  end.

Fixpoint trim_right (s : string) : string :=
  match s with
  | EmptyString => EmptyString
  | String c s' =>
      match trim_right s' with
      | EmptyString => if is_space c then EmptyString else String c EmptyString
      | t => String c t
      end
  end.

Definition trim (s : string) : string := trim_right (trim_left s).

(** The value of a decimal digit: its character code minus the code of
    [0] (48), for the codes 48 to 57. *)
Definition digit_of (c : ascii) : option Z :=
  let code := Z.of_N (N_of_ascii c) in
  if (48 <=? code) && (code <=? 57) then Some (code - 48) else None.

(** Value of a run of decimal digits, most significant first. *)
Fixpoint digits_go (acc : Z) (s : string) : option Z :=
  match s with
  | EmptyString => Some acc
  | String c s' =>
      match digit_of c with
      | Some d => digits_go (10 * acc + d) s'
      | None => None
      end
  end.

Definition unsigned_literal (s : string) : option Z :=
  match s with
  | EmptyString => None
  | _ => digits_go 0 s
  end.

(** [Number(s)] on strings: white space is trimmed, the empty string is [0],
    an optional sign is followed by a non-empty run of digits. *)
Definition Number (s : string) : jsnum :=
  match trim s with
  | EmptyString => Int 0
  | String c r =>
      if decide (c = "+"%char) then
        from_option Int NaN (unsigned_literal r)
      else if decide (c = "-"%char) then
        from_option (λ n, Int (- n)) NaN (unsigned_literal r)
      else
        from_option Int NaN (unsigned_literal (String c r))
  end.

(** [s.split(sep)] for a one-character separator: never the empty list; the
    empty string splits into one empty piece. *)
Fixpoint split (sep : ascii) (s : string) : list string :=
  match s with
  | EmptyString => [EmptyString]
  | String c s' =>
      if decide (c = sep) then EmptyString :: split sep s'
      else match split sep s' with
           | piece :: rest => String c piece :: rest
           | [] => [String c EmptyString]
           end
  end.

(** The object [{ x, y }] returned by [parseKey]; a component is [None] when
    the destructured array has no such element ([undefined]). *)
Record Point : Type := mkPoint {
  pt_x : option jsnum;
  pt_y : option jsnum;
}.

(** [parseKey]: [const [x, y] = key.split(',').map(Number); return { x, y }]. *)
Definition parseKey (key : string) : Point :=
  let parts := Number <$> split ","%char key in
  {| pt_x := parts !! 0%nat; pt_y := parts !! 1%nat |}.

End Coords.

Export Coords.

(** ** The store ([src/store.ts]) *)

Module Store.

(** [ToolType = 'pencil' | 'eraser' | 'fill' | 'line'] *)
Inductive ToolType : Type := Pencil | Eraser | Fill | Line.

Inductive ViewMode : Type := View2D | View3D | ViewXR.

Inductive Difficulty : Type := Easy | Medium | Hard.

#[global] Instance ToolType_eq_dec : EqDecision ToolType.
Proof. solve_decision. Defined.
#[global] Instance ViewMode_eq_dec : EqDecision ViewMode.
Proof. solve_decision. Defined.
#[global] Instance Difficulty_eq_dec : EqDecision Difficulty.
Proof. solve_decision. Defined.

(** [BoardSpec]; the engine reads [cols] and [rows] only. *)
Record BoardSpec : Type := mkBoard {
  widthMm : Q;
  heightMm : Q;
  cols : Z;
  rows : Z;
  pegPitchMm : Q;
  pegDiameterMm : Q;
  pegHeightMm : Q;
  marginMm : Q;
}.

Record PaletteColor : Type := mkColor {
  color_id : string;
  color_name : string;
  color_hex : string;
}.

Record Metadata : Type := mkMetadata {
  title : string;
  author : string;
  difficulty : Difficulty;
  created : Z;
}.

(** [Map<CellKey, string>] *)
Abbreviation Grid := (gmap string string).

(** [Record<CellKey, string>]: a plain object, given by its own enumerable
    entries (what [Object.entries] yields); keys of an object are unique. *)
Abbreviation CellRecord := (list (string * string)).

Record Pattern : Type := mkPattern {
  pattern_id : string;
  pattern_metadata : Metadata;
  pattern_cells : CellRecord;
}.

Definition DEFAULT_PALETTE : list PaletteColor :=
  [ mkColor "red" "Red" "#ef4444";
    mkColor "orange" "Orange" "#f97316";
    mkColor "yellow" "Yellow" "#eab308";
    mkColor "green" "Green" "#22c55e";
    mkColor "blue" "Blue" "#3b82f6";
    mkColor "purple" "Purple" "#a855f7";
    mkColor "pink" "Pink" "#ec4899";
    mkColor "white" "White" "#f8fafc";
    mkColor "black" "Black" "#1e293b";
    mkColor "brown" "Brown" "#78350f" ].

Definition DEFAULT_BOARD : BoardSpec :=
  {| widthMm := 160; heightMm := 160; cols := 30; rows := 30;
     pegPitchMm := 5; pegDiameterMm := 5 # 2; pegHeightMm := 3;
     marginMm := 15 # 2 |}.

(** The state of the store, parameterised by what a grid is held as: the
    [Map] contents themselves ([Grid], below) or a reference to a [Map]
    object on a heap ([RefStore], further down). *)
Record StoreState (G : Type) : Type := mkState {
  board : BoardSpec;
  cells : G;
  palette : list PaletteColor;
  metadata : Metadata;
  selectedColorId : string;
  activeTool : ToolType;
  showGrid : bool;
  viewMode : ViewMode;
  history : list G;
  historyPointer : nat;
}.

Arguments mkState {G}.
Arguments board {G}.
Arguments cells {G}.
Arguments palette {G}.
Arguments metadata {G}.
Arguments selectedColorId {G}.
Arguments activeTool {G}.
Arguments showGrid {G}.
Arguments viewMode {G}.
Arguments history {G}.
Arguments historyPointer {G}.

Abbreviation AppState := (StoreState Grid).

(** [mapToRecord = map => Object.fromEntries(map)] *)
Definition mapToRecord (map : Grid) : CellRecord := map_to_list map.

(** [recordToMap = record => new Map(Object.entries(record))]: the [Map]
    constructor sets the entries one after the other, a later entry
    overriding an earlier one with the same key. *)
Definition recordToMap (record : CellRecord) : Grid :=
  foldl (λ m kv, <[kv.1 := kv.2]> m) ∅ record.

(** The initial state; [created] is [Date.now()] at creation. *)
Definition initial_state (now : Z) : AppState :=
  {| board := DEFAULT_BOARD;
     cells := ∅;
     palette := DEFAULT_PALETTE;
     metadata := {| title := "My Pattern"; author := "Artist";
                    difficulty := Easy; created := now |};
     selectedColorId := "red";
     activeTool := Pencil;
     showGrid := true;
     viewMode := View2D;
     history := [∅];
     historyPointer := 0 |}.

(** [set({ cells, history, historyPointer })] *)
Definition set_edit {G} (s : StoreState G) (newCells : G) (newHistory : list G)
    (newPointer : nat) : StoreState G :=
  {| board := board s; cells := newCells; palette := palette s;
     metadata := metadata s; selectedColorId := selectedColorId s;
     activeTool := activeTool s; showGrid := showGrid s;
     viewMode := viewMode s; history := newHistory;
     historyPointer := newPointer |}.

(** [set({ cells, historyPointer })] *)
Definition set_travel {G} (s : StoreState G) (newCells : G) (newPointer : nat)
    : StoreState G :=
  set_edit s newCells (history s) newPointer.

(** The value [setCell] wants at the cell: [selectedColorId], or [undefined]
    when the tool is the eraser. *)
Definition target_value {G} (s : StoreState G) : option string :=
  if decide (activeTool s = Eraser) then None else Some (selectedColorId s).

(** [if (newVal) newCells.set(key, newVal); else newCells.delete(key);]
    The test is JavaScript truthiness: [undefined] and the empty string both
    take the [delete] branch. *)
Definition write_cell (key : string) (newVal : option string) (m : Grid) : Grid :=
  match newVal with
  | Some v => if decide (v = "") then delete key m else <[key := v]> m
  | None => delete key m
  end.

(** [history.slice(0, historyPointer + 1)] followed by [push(newCells)] *)
Definition push_history {G} (s : StoreState G) (newCells : G) : list G :=
  take (S (historyPointer s)) (history s) ++ [newCells].

(** [set({ cells: newCells, history: newHistory,
          historyPointer: newHistory.length - 1 })] *)
Definition commit {G} (s : StoreState G) (newCells : G) : StoreState G :=
  let newHistory := push_history s newCells in
  set_edit s newCells newHistory (length newHistory - 1).

Definition setCell (x y : Z) (s : AppState) : AppState :=
  let key := makeKey x y in
  let currentVal := cells s !! key in
  let newVal := target_value s in
  if decide (currentVal = newVal) then s
  else commit s (write_cell key newVal (cells s)).

(** The bounds test of the fill loop:
    [x < 0 || x >= board.cols || y < 0 || y >= board.rows]. *)
Definition out_of_bounds (b : BoardSpec) (x y : Z) : bool :=
  (x <? 0) || (cols b <=? x) || (y <? 0) || (rows b <=? y).

(** The [while (queue.length > 0)] loop of [fill].  [queue] is used as a
    stack ([push]/[pop] at the end of the array): the head of the list is the
    last element of the array.  [fuel] bounds the number of iterations; the
    result is [None] when the bound is reached with work left. *)
Fixpoint fill_loop (fuel : nat) (b : BoardSpec) (targetColor : option string)
    (selectedColorId : string) (newCells : Grid) (queue : list (Z * Z))
    (visited : gset string) : option Grid :=
  match queue with
  | [] => Some newCells
  | (x, y) :: queue' =>
      match fuel with
      | O => None
      | S fuel' =>
          let key := makeKey x y in
          if decide (key ∈ visited) then
            fill_loop fuel' b targetColor selectedColorId newCells queue' visited
          else if out_of_bounds b x y then
            fill_loop fuel' b targetColor selectedColorId newCells queue' visited
          else if decide (newCells !! key = targetColor) then
            fill_loop fuel' b targetColor selectedColorId
              (<[key := selectedColorId]> newCells)
              ((x, y - 1) :: (x, y + 1) :: (x - 1, y) :: (x + 1, y) :: queue')
              ({[key]} ∪ visited)
          else
            fill_loop fuel' b targetColor selectedColorId newCells queue' visited
      end
  end.

(** Iterations granted to the loop of [fill]: one for the start position and
    four for every position of the board. *)
Definition fill_fuel (b : BoardSpec) : nat :=
  S (4 * (Z.to_nat (cols b) * Z.to_nat (rows b))).

Definition fill (startX startY : Z) (s : AppState) : option AppState :=
  let targetKey := makeKey startX startY in
  let targetColor := cells s !! targetKey in
  if decide (targetColor = Some (selectedColorId s)) then Some s
  else
    newCells ← fill_loop (fill_fuel (board s)) (board s) targetColor
                 (selectedColorId s) (cells s) [(startX, startY)] ∅;
    Some (commit s newCells).

Definition clearBoard (s : AppState) : AppState := commit s ∅.

Definition setColor {G} (id : string) (s : StoreState G) : StoreState G :=
  {| board := board s; cells := cells s; palette := palette s;
     metadata := metadata s; selectedColorId := id;
     activeTool := activeTool s; showGrid := showGrid s;
     viewMode := viewMode s; history := history s;
     historyPointer := historyPointer s |}.

Definition setTool {G} (tool : ToolType) (s : StoreState G) : StoreState G :=
  {| board := board s; cells := cells s; palette := palette s;
     metadata := metadata s; selectedColorId := selectedColorId s;
     activeTool := tool; showGrid := showGrid s;
     viewMode := viewMode s; history := history s;
     historyPointer := historyPointer s |}.

Definition setViewMode {G} (mode : ViewMode) (s : StoreState G) : StoreState G :=
  {| board := board s; cells := cells s; palette := palette s;
     metadata := metadata s; selectedColorId := selectedColorId s;
     activeTool := activeTool s; showGrid := showGrid s;
     viewMode := mode; history := history s;
     historyPointer := historyPointer s |}.

(** [undo]/[redo] read [history[newPointer]]; an index outside the array
    would store [undefined] as the grid, which is the [None] result here. *)
Definition undo {G} (s : StoreState G) : option (StoreState G) :=
  if decide (0 < historyPointer s)%nat then
    let newPointer := (historyPointer s - 1)%nat in
    snapshot ← history s !! newPointer;
    Some (set_travel s snapshot newPointer)
  else Some s.

Definition redo {G} (s : StoreState G) : option (StoreState G) :=
  if decide (historyPointer s < length (history s) - 1)%nat then
    let newPointer := (historyPointer s + 1)%nat in
    snapshot ← history s !! newPointer;
    Some (set_travel s snapshot newPointer)
  else Some s.

(** [set({ cells: newCells, metadata: pattern.metadata,
          history: [newCells], historyPointer: 0 })] *)
Definition set_loaded {G} (s : StoreState G) (newCells : G)
    (newMetadata : Metadata) : StoreState G :=
  {| board := board s; cells := newCells; palette := palette s;
     metadata := newMetadata;
     selectedColorId := selectedColorId s; activeTool := activeTool s;
     showGrid := showGrid s; viewMode := viewMode s;
     history := [newCells]; historyPointer := 0 |}.

Definition loadPattern (pattern : Pattern) (s : AppState) : AppState :=
  let newCells := recordToMap (pattern_cells pattern) in
  set_loaded s newCells (pattern_metadata pattern).

(** [exportPattern]; [uuid] stands for [uuidv4()] and [now] for [Date.now()]. *)
Definition exportPattern (uuid : string) (now : Z) (s : AppState) : Pattern :=
  {| pattern_id := uuid;
     pattern_metadata :=
       {| title := title (metadata s); author := author (metadata s);
          difficulty := difficulty (metadata s); created := now |};
     pattern_cells := mapToRecord (cells s) |}.

(** The calls a client of the store can make. *)
Inductive Op : Type :=
  | OpSetCell (x y : Z)
  | OpFill (x y : Z)
  | OpClearBoard
  | OpSetColor (id : string)
  | OpSetTool (tool : ToolType)
  | OpSetViewMode (mode : ViewMode)
  | OpUndo
  | OpRedo
  | OpLoadPattern (pattern : Pattern)
  | OpExportPattern (uuid : string) (now : Z).

Definition step (op : Op) (s : AppState) : option AppState :=
  match op with
  | OpSetCell x y => Some (setCell x y s)
  | OpFill x y => fill x y s
  | OpClearBoard => Some (clearBoard s)
  | OpSetColor id => Some (setColor id s)
  | OpSetTool tool => Some (setTool tool s)
  | OpSetViewMode mode => Some (setViewMode mode s)
  | OpUndo => undo s
  | OpRedo => redo s
  | OpLoadPattern pattern => Some (loadPattern pattern s)
  | OpExportPattern _ _ => Some s
  end.

Fixpoint run (ops : list Op) (s : AppState) : option AppState :=
  match ops with
  | [] => Some s
  | op :: ops' => s' ← step op s; run ops' s'
  end.

(** The [persist] middleware options: what is saved, and how a saved value
    is merged into the freshly created state when the store is rehydrated. *)
Record Persisted : Type := mkPersisted {
  persisted_cells : option CellRecord;
  persisted_metadata : option Metadata;
}.

Definition partialize (s : AppState) : Persisted :=
  {| persisted_cells := Some (mapToRecord (cells s));
     persisted_metadata := Some (metadata s) |}.

Definition merge (persisted : Persisted) (current : AppState) : AppState :=
  {| board := board current;
     cells := match persisted_cells persisted with
              | Some record => recordToMap record
              | None => cells current
              end;
     palette := palette current;
     metadata := default (metadata current) (persisted_metadata persisted);
     selectedColorId := selectedColorId current;
     activeTool := activeTool current;
     showGrid := showGrid current;
     viewMode := viewMode current;
     history := history current;
     historyPointer := historyPointer current |}.

End Store.

Export Store.


(** ** The store with [Map] objects held by reference

    JavaScript [Map]s are mutable objects: [cells], the entries of [history]
    and whatever a component read from the store earlier are references.
    Here the objects live on a heap and the state holds locations, so that
    the clone-before-write discipline of the store can be stated.  The
    selection, the history pointer and the control flow are those of [Store];
    [RefStore] differs in where a [Map] is created and where it is written. *)

Module RefStore.

Abbreviation Heap := (gmap nat (gmap string string)).
Abbreviation RefState := (StoreState nat).

(** [new Map(...)]: a location unused so far receives the contents. *)
Definition alloc (contents : Grid) (h : Heap) : nat * Heap :=
  let l := fresh (dom h) in (l, <[l := contents]> h).

(** [map.get(key)] on the object at [l] *)
Definition map_get (h : Heap) (l : nat) (key : string) : option string :=
  (h !!! l) !! key.

(** [map.set(key, v)] on the object at [l]: the object is updated in place. *)
Definition map_set (l : nat) (key v : string) (h : Heap) : Heap :=
  alter (<[key := v]>) l h.

Definition map_delete (l : nat) (key : string) (h : Heap) : Heap :=
  alter (delete key) l h.

Definition write_cell (l : nat) (key : string) (newVal : option string)
    (h : Heap) : Heap :=
  match newVal with
  | Some v => if decide (v = "") then map_delete l key h else map_set l key v h
  | None => map_delete l key h
  end.

(** [cells: new Map()] and [history: [new Map()]] are two objects. *)
Definition initial_state (now : Z) : Heap * RefState :=
  let '(c, h1) := alloc ∅ ∅ in
  let '(h0, h2) := alloc ∅ h1 in
  (h2,
   {| board := DEFAULT_BOARD; cells := c; palette := DEFAULT_PALETTE;
      metadata := {| title := "My Pattern"; author := "Artist";
                     difficulty := Easy; created := now |};
      selectedColorId := "red"; activeTool := Pencil; showGrid := true;
      viewMode := View2D; history := [h0]; historyPointer := 0 |}).

Definition setCell (x y : Z) (σ : Heap * RefState) : Heap * RefState :=
  let '(h, s) := σ in
  let key := makeKey x y in
  let currentVal := map_get h (cells s) key in
  let newVal := target_value s in
  if decide (currentVal = newVal) then σ
  else
    let '(newCells, h1) := alloc (h !!! cells s) h in
    (write_cell newCells key newVal h1, commit s newCells).

Fixpoint fill_loop (fuel : nat) (b : BoardSpec) (targetColor : option string)
    (selectedColorId : string) (h : Heap) (newCells : nat)
    (queue : list (Z * Z)) (visited : gset string) : option Heap :=
  match queue with
  | [] => Some h
  | (x, y) :: queue' =>
      match fuel with
      | O => None
      | S fuel' =>
          let key := makeKey x y in
          if decide (key ∈ visited) then
            fill_loop fuel' b targetColor selectedColorId h newCells queue' visited
          else if out_of_bounds b x y then
            fill_loop fuel' b targetColor selectedColorId h newCells queue' visited
          else if decide (map_get h newCells key = targetColor) then
            fill_loop fuel' b targetColor selectedColorId
              (map_set newCells key selectedColorId h) newCells
              ((x, y - 1) :: (x, y + 1) :: (x - 1, y) :: (x + 1, y) :: queue')
              ({[key]} ∪ visited)
          else
            fill_loop fuel' b targetColor selectedColorId h newCells queue' visited
      end
  end.

Definition fill (startX startY : Z) (σ : Heap * RefState)
    : option (Heap * RefState) :=
  let '(h, s) := σ in
  let targetKey := makeKey startX startY in
  let targetColor := map_get h (cells s) targetKey in
  if decide (targetColor = Some (selectedColorId s)) then Some σ
  else
    let '(newCells, h1) := alloc (h !!! cells s) h in
    h2 ← fill_loop (fill_fuel (board s)) (board s) targetColor
           (selectedColorId s) h1 newCells [(startX, startY)] ∅;
    Some (h2, commit s newCells).

Definition clearBoard (σ : Heap * RefState) : Heap * RefState :=
  let '(h, s) := σ in
  let '(newCells, h1) := alloc ∅ h in
  (h1, commit s newCells).

Definition loadPattern (pattern : Pattern) (σ : Heap * RefState)
    : Heap * RefState :=
  let '(h, s) := σ in
  let '(newCells, h1) := alloc (recordToMap (pattern_cells pattern)) h in
  (h1, set_loaded s newCells (pattern_metadata pattern)).

Definition step (op : Op) (σ : Heap * RefState) : option (Heap * RefState) :=
  match op with
  | OpSetCell x y => Some (setCell x y σ)
  | OpFill x y => fill x y σ
  | OpClearBoard => Some (clearBoard σ)
  | OpSetColor id => Some (σ.1, setColor id σ.2)
  | OpSetTool tool => Some (σ.1, setTool tool σ.2)
  | OpSetViewMode mode => Some (σ.1, setViewMode mode σ.2)
  | OpUndo => s' ← undo σ.2; Some (σ.1, s')
  | OpRedo => s' ← redo σ.2; Some (σ.1, s')
  | OpLoadPattern pattern => Some (loadPattern pattern σ)
  | OpExportPattern _ _ => Some σ
  end.

(** What a reader sees through the references of a state. *)
Definition contents (σ : Heap * RefState) : AppState :=
  let '(h, s) := σ in
  {| board := board s; cells := h !!! cells s; palette := palette s;
     metadata := metadata s; selectedColorId := selectedColorId s;
     activeTool := activeTool s; showGrid := showGrid s;
     viewMode := viewMode s;
     history := (λ l, h !!! l) <$> history s;
     historyPointer := historyPointer s |}.

(** Every reference of the state points to an allocated object. *)
Definition allocated (σ : Heap * RefState) : Prop :=
  cells σ.2 ∈ dom σ.1 ∧ ∀ l, l ∈ history σ.2 → l ∈ dom σ.1.

End RefStore.

(** ** Vocabulary of the properties *)

(** [0 ≤ x < cols] and [0 ≤ y < rows] *)
Definition in_bounds (b : BoardSpec) (x y : Z) : Prop :=
  0 ≤ x < cols b ∧ 0 ≤ y < rows b.

#[global] Instance in_bounds_dec b x y : Decision (in_bounds b x y).
Proof. unfold in_bounds. apply _. Defined.

(** The key of a position given as a pair. *)
Definition key_of (p : Z * Z) : string := makeKey p.1 p.2.

(** Up, down, left, right; no diagonals. *)
Definition adjacent (p q : Z * Z) : Prop :=
  q = (p.1 + 1, p.2) ∨ q = (p.1 - 1, p.2) ∨
  q = (p.1, p.2 + 1) ∨ q = (p.1, p.2 - 1).

(** The 4-connected region of [start] in grid [g]: the positions reached from
    [start] by steps to adjacent in-bounds positions holding the colour that
    [start] holds (absence of a colour counts as a colour).  It is the
    largest such set: every position that can be reached is in it. *)
Inductive region (b : BoardSpec) (g : Grid) (start : Z * Z) : Z * Z → Prop :=
  | region_start : region b g start start
  | region_step p q :
      region b g start p →
      adjacent p q →
      in_bounds b q.1 q.2 →
      g !! key_of q = g !! key_of start →
      region b g start q.

(** The history invariant: the pointer is an index of the history, and the
    snapshot there is the live grid. *)
Definition history_ok (s : AppState) : Prop :=
  (historyPointer s < length (history s))%nat ∧
  history s !! historyPointer s = Some (cells s).

(** A fresh engine: one empty snapshot, pointer 0, empty grid. *)
Definition fresh_engine (s : AppState) : Prop :=
  cells s = ∅ ∧ history s = [∅] ∧ historyPointer s = 0%nat.

Definition is_mutation (op : Op) : bool :=
  match op with
  | OpSetCell _ _ | OpFill _ _ | OpClearBoard => true
  | _ => false
  end.

Definition is_selection (op : Op) : bool :=
  match op with
  | OpSetColor _ | OpSetTool _ | OpSetViewMode _ => true
  | _ => false
  end.

(** The early-return tests of [setCell] and [fill]; [clearBoard] has none. *)
Definition is_noop (op : Op) (s : AppState) : bool :=
  match op with
  | OpSetCell x y => bool_decide (cells s !! makeKey x y = target_value s)
  | OpFill x y =>
      bool_decide (cells s !! makeKey x y = Some (selectedColorId s))
  | _ => false
  end.

(** An editing session: selections and mutations only, every mutation
    getting past its early return in the state it is applied to. *)
Fixpoint effective_edits (ops : list Op) (s : AppState) : bool :=
  match ops with
  | [] => true
  | op :: ops' =>
      (is_selection op || (is_mutation op && negb (is_noop op s)))
      && match step op s with
         | Some s' => effective_edits ops' s'
         | None => false
         end
  end.

Definition mutation_count (ops : list Op) : nat :=
  length (filter (λ op, is_mutation op = true) ops).


(** A cell key decodes when [parseKey] yields two integers. *)
Definition key_decodes (key : string) : bool :=
  match parseKey key with
  | {| pt_x := Some (Int _); pt_y := Some (Int _) |} => true
  | _ => false
  end.

Definition in_palette (pal : list PaletteColor) (id : string) : bool :=
  bool_decide (id ∈ color_id <$> pal).

(** An entry of a persisted pattern is malformed when its key does not
    decode or its colour is not a palette identifier. *)
Definition malformed_entry (pal : list PaletteColor) (kv : string * string)
    : bool :=
  negb (key_decodes kv.1) || negb (in_palette pal kv.2).

(** Characters of a rendered integer: digits and the minus sign. *)
Definition is_digit (c : ascii) : bool := bool_decide (is_Some (digit_of c)).

Definition num_char (c : ascii) : bool :=
  bool_decide (is_Some (digit_of c)) || bool_decide (c = "-"%char).

Fixpoint string_forall (P : ascii → bool) (s : string) : bool :=
  match s with
  | EmptyString => true
  | String c s' => P c && string_forall P s'
  end.

(** The positions of the board, and their keys. *)
Definition all_positions (b : BoardSpec) : list (Z * Z) :=
  list_prod (seqZ 0 (cols b)) (seqZ 0 (rows b)).

Definition all_keys (b : BoardSpec) : gset string :=
  list_to_set ((λ p, makeKey p.1 p.2) <$> all_positions b).

(** The pointer is at the last of [S n] snapshots, the first of which is the
    empty grid. *)
Definition at_tip (n : nat) (s : AppState) : Prop :=
  historyPointer s = n ∧ length (history s) = S n ∧
  history s !! 0%nat = Some (∅ : Grid) ∧ history s !! n = Some (cells s).

(** The 3×3 board of the worked scenarios, and a fresh engine on it. *)
Definition board3 : BoardSpec :=
  {| widthMm := 25; heightMm := 25; cols := 3; rows := 3;
     pegPitchMm := 5; pegDiameterMm := 5 # 2; pegHeightMm := 3;
     marginMm := 15 # 2 |}.

Definition fresh3 : AppState :=
  {| board := board3; cells := ∅; palette := DEFAULT_PALETTE;
     metadata := {| title := "My Pattern"; author := "Artist";
                    difficulty := Easy; created := 0 |};
     selectedColorId := "red"; activeTool := Pencil; showGrid := true;
     viewMode := View2D; history := [∅]; historyPointer := 0 |}.

(** What holds between two iterations of the fill loop started at [start] on
    grid [g] with colour [sel]: [m] is [g] with [sel] at the visited keys;
    the visited keys are keys of region positions; an eligible neighbour of a
    visited position is visited or waits in the queue, and so does [start];
    an eligible position in the queue belongs to the region. *)
Definition fill_inv (b : BoardSpec) (g : Grid) (start : Z * Z) (sel : string)
    (m : Grid) (queue : list (Z * Z)) (visited : gset string) : Prop :=
  (∀ k, m !! k = if decide (k ∈ visited) then Some sel else g !! k) ∧
  (∀ k, k ∈ visited → ∃ p, region b g start p ∧ k = key_of p) ∧
  (∀ p q, key_of p ∈ visited → adjacent p q → in_bounds b q.1 q.2 →
          g !! key_of q = g !! key_of start →
          key_of q ∈ visited ∨ q ∈ queue) ∧
  (key_of start ∈ visited ∨ start ∈ queue) ∧
  (∀ q, q ∈ queue → in_bounds b q.1 q.2 →
        g !! key_of q = g !! key_of start → region b g start q).

(** The 3×3 grid with every cell red. *)
Definition board3_all_red : Grid :=
  list_to_map ((λ p, (key_of p, "red")) <$> all_positions board3).

(** ** The views ([App], [Editor2D], [Scene3D])

    The handlers of the components, from the point where the pointer
    position has been converted to a grid position ([Math.floor] in the 2D
    editor, [Math.round] in the 3D scene) — the conversion itself is
    floating-point geometry and is not modelled.  A [NaN] or infinite result
    of the conversion fails the bounds test like an integer outside the
    board. *)

Module Ui.

(** [gridX >= 0 && gridX < board.cols && gridY >= 0 && gridY < board.rows],
    the test both editors make before they call the store. *)
Definition inside (b : BoardSpec) (gridX gridY : Z) : bool :=
  (0 <=? gridX) && (gridX <? cols b) && (0 <=? gridY) && (gridY <? rows b).

(** [Editor2D.handleInteract] *)
Definition handleInteract (gridX gridY : Z) (s : AppState) : option AppState :=
  if inside (board s) gridX gridY then
    if decide (activeTool s = Fill) then fill gridX gridY s
    else Some (setCell gridX gridY s)
  else Some s.

(** The store together with the [isDragging] state of [Editor2D]. *)
Record View : Type := mkView {
  store : AppState;
  isDragging : bool;
}.

(** [Editor2D.handlePointerDown]; [button] is [e.button]. *)
Definition handlePointerDown (button gridX gridY : Z) (v : View)
    : option View :=
  if bool_decide (button = 1) || bool_decide (activeTool (store v) = Line)
  then Some {| store := store v; isDragging := true |}
  else
    s' ← handleInteract gridX gridY (store v);
    Some {| store := s'; isDragging := true |}.

(** [Editor2D.handlePointerMove] *)
Definition handlePointerMove (gridX gridY : Z) (v : View) : option View :=
  if negb (isDragging v) then Some v
  else if bool_decide (activeTool (store v) = Pencil)
          || bool_decide (activeTool (store v) = Eraser)
  then
    s' ← handleInteract gridX gridY (store v);
    Some {| store := s'; isDragging := isDragging v |}
  else Some v.

(** [Editor2D.handlePointerUp] (also bound to [onPointerLeave]) *)
Definition handlePointerUp (v : View) : View :=
  {| store := store v; isDragging := false |}.

(** [Scene3D.handlePointerDown] *)
Definition scenePointerDown (interactive : bool) (col row : Z) (s : AppState)
    : AppState :=
  if negb interactive then s
  else if inside (board s) col row then setCell col row s
  else s.

(** The three tool buttons of the footer. *)
Inductive ToolButton : Type := PencilButton | FillButton | EraserButton.

Definition tool_of_button (button : ToolButton) : ToolType :=
  match button with
  | PencilButton => Pencil
  | FillButton => Fill
  | EraserButton => Eraser
  end.

Inductive SheetType : Type := Kid | Teacher.

(** What a user can do in [App]. *)
Inductive Event : Type :=
  | ClickView (mode : ViewMode)
  | ClickUndo
  | ClickRedo
  | ClickDownload (type : SheetType) (uuid : string) (now : Z)
  | ClickSaveJson (uuid : string) (now : Z)
  | ClickTool (button : ToolButton)
  | ClickClear
  | ClickColor (index : nat)
  | EditorPointerDown (button gridX gridY : Z)
  | EditorPointerMove (gridX gridY : Z)
  | EditorPointerUp
  | ScenePointerDown (col row : Z).

(** The handler an event reaches.  [Editor2D] is mounted in the 2D view and
    [Scene3D] (with [interactive]) in the 3D view; the footer with the tools,
    the clear button and the palette is absent in the XR view; an event
    aimed at an element that is not mounted has no handler.  [Editor2D]
    loses its [isDragging] state when it is unmounted.  The two export
    entries read the store through [exportPattern] and leave it alone. *)
Definition dispatch (e : Event) (v : View) : option View :=
  let s := store v in
  match e with
  | ClickView mode =>
      Some {| store := setViewMode mode s;
              isDragging :=
                bool_decide (viewMode s = View2D)
                && bool_decide (mode = View2D) && isDragging v |}
  | ClickUndo => s' ← undo s; Some {| store := s'; isDragging := isDragging v |}
  | ClickRedo => s' ← redo s; Some {| store := s'; isDragging := isDragging v |}
  | ClickDownload _ _ _ => Some v
  | ClickSaveJson _ _ => Some v
  | ClickTool button =>
      if bool_decide (viewMode s = ViewXR) then Some v
      else Some {| store := setTool (tool_of_button button) s;
                   isDragging := isDragging v |}
  | ClickClear =>
      if bool_decide (viewMode s = ViewXR) then Some v
      else Some {| store := clearBoard s; isDragging := isDragging v |}
  | ClickColor index =>
      if bool_decide (viewMode s = ViewXR) then Some v
      else match palette s !! index with
           | Some color =>
               Some {| store := setColor (color_id color) s;
                       isDragging := isDragging v |}
           | None => Some v
           end
  | EditorPointerDown button gridX gridY =>
      if bool_decide (viewMode s = View2D)
      then handlePointerDown button gridX gridY v
      else Some v
  | EditorPointerMove gridX gridY =>
      if bool_decide (viewMode s = View2D)
      then handlePointerMove gridX gridY v
      else Some v
  | EditorPointerUp =>
      if bool_decide (viewMode s = View2D)
      then Some (handlePointerUp v)
      else Some v
  | ScenePointerDown col row =>
      if bool_decide (viewMode s = View3D)
      then Some {| store := scenePointerDown true col row s;
                   isDragging := isDragging v |}
      else Some v
  end.

Fixpoint interact (events : list Event) (v : View) : option View :=
  match events with
  | [] => Some v
  | e :: events' => v' ← dispatch e v; interact events' v'
  end.

(** The application as it starts, without a saved pattern. *)
Definition initial_view (now : Z) : View :=
  {| store := Store.initial_state now; isDragging := false |}.

End Ui.

(** ** The printable sheet ([src/utils/exportPdf.ts])

    What [generatePDF] puts on the sheet: the header texts, one mark per
    board position in the order of the two loops, the legend entries and the
    file name.  The millimetre positions and sizes of the marks are
    floating-point geometry ([scale], [cellSize]) and are not modelled. *)

Module Pdf.

Import Ui.

(** [s.toLowerCase()] on the ASCII letters; other bytes are kept.  The only
    use is the comparison with ['#ffffff'], which no character outside ASCII
    can satisfy after lower-casing. *)
Definition lower_char (c : ascii) : ascii :=
  let code := N_of_ascii c in
  if (65 <=? code)%N && (code <=? 90)%N then ascii_of_N (code + 32) else c.

Fixpoint toLowerCase (s : string) : string :=
  match s with
  | EmptyString => EmptyString
  | String c s' => String (lower_char c) (toLowerCase s')
  end.

(** What is drawn at a board position. *)
Inductive Mark : Type :=
  | Bead (color : PaletteColor) (outlined : bool)
         (label : option (string * bool))
      (** a filled circle in [color.hex], with a stroke when [outlined];
          on the teacher sheet the text [x,y], black when the flag is set,
          white otherwise *)
  | Dot       (** the small grey dot of an empty position, teacher sheet *)
  | Outline   (** the faint circle of an empty position, kid sheet *)
  | Nothing.  (** a colour identifier the palette does not know *)

(** [pattern.cells[key]]: the own property of the cell object. *)
Definition record_get (record : CellRecord) (key : string) : option string :=
  recordToMap record !! key.

(** [palette.find(c => c.id === colorId)] *)
Definition find_color (palette : list PaletteColor) (colorId : string)
    : option PaletteColor :=
  snd <$> list_find (λ c, color_id c = colorId) palette.

(** The body of the two loops for the position [(x, y)].  [if (colorId)] is
    truthiness: a missing key and the empty string both count as empty. *)
Definition cell_mark (type : SheetType) (record : CellRecord)
    (palette : list PaletteColor) (x y : Z) : Mark :=
  let key := makeKey x y in
  match record_get record key with
  | Some colorId =>
      if decide (colorId = "") then
        match type with Teacher => Dot | Kid => Outline end
      else
        match find_color palette colorId with
        | Some color =>
            Bead color
              (bool_decide (toLowerCase (color_hex color) = "#ffffff")
               || bool_decide (color_id color = "white"))
              (match type with
               | Teacher =>
                   Some (makeKey x y,
                         bool_decide (color_hex color = "#ffffff"))
               | Kid => None
               end)
        | None => Nothing
        end
  | None => match type with Teacher => Dot | Kid => Outline end
  end.

(** The names a plain object inherits from [Object.prototype].  On the
    [counts] object of the legend such a name reads as a function or an
    object, not as a number; colour identifiers of that form are outside
    the model of the legend. *)
Definition inherited_names : list string :=
  [ "constructor"; "hasOwnProperty"; "isPrototypeOf";
    "propertyIsEnumerable"; "toLocaleString"; "toString"; "valueOf";
    "__proto__"; "__defineGetter__"; "__defineSetter__";
    "__lookupGetter__"; "__lookupSetter__" ].

(** [Object.values(pattern.cells).forEach(c => counts[c] = (counts[c] || 0) + 1)] *)
Definition count_colors (record : CellRecord) : gmap string nat :=
  foldl (λ counts c, <[c := S (default 0%nat (counts !! c))]> counts) ∅
        record.*2.

(** The legend: for every palette colour with a truthy count, in palette
    order, the colour and its count (printed as [name: count pcs]).  [None]
    when a colour identifier of the cells or of the palette is an inherited
    name. *)
Definition legend (record : CellRecord) (palette : list PaletteColor)
    : option (list (PaletteColor * nat)) :=
  if bool_decide (Forall (λ c, c ∉ inherited_names)
                    (record.*2 ++ (color_id <$> palette)))
  then
    Some (omap (λ p, match count_colors record !! color_id p with
                     | Some (S n) => Some (p, S n)
                     | _ => None
                     end) palette)
  else None.

Record Sheet : Type := mkSheet {
  sheet_title : string;
  sheet_byline : string;
  sheet_marks : list (Z * Z * Mark);
  sheet_legend : option (list (PaletteColor * nat));
  sheet_file : string;
}.

Definition type_name (type : SheetType) : string :=
  match type with Kid => "kid" | Teacher => "teacher" end.

Definition generatePDF (pattern : Pattern) (b : BoardSpec)
    (palette : list PaletteColor) (type : SheetType) : Sheet :=
  {| sheet_title := title (pattern_metadata pattern);
     sheet_byline := "By: " +:+ author (pattern_metadata pattern);
     sheet_marks :=
       (λ p, (p, cell_mark type (pattern_cells pattern) palette p.1 p.2))
         <$> all_positions b;
     sheet_legend := legend (pattern_cells pattern) palette;
     sheet_file :=
       title (pattern_metadata pattern) +:+ "_" +:+ type_name type
       +:+ ".pdf" |}.

(** [App.handleDownload]: [generatePDF(exportPattern(), board, palette, type)] *)
Definition handleDownload (type : SheetType) (uuid : string) (now : Z)
    (s : AppState) : Sheet :=
  generatePDF (exportPattern uuid now s) (board s) (palette s) type.

#[global] Instance PaletteColor_eq_dec : EqDecision PaletteColor.
Proof. solve_decision. Defined.

(** The number of beads of a colour among the marks of a sheet. *)
Definition is_bead_of (c : PaletteColor) (m : Mark) : bool :=
  match m with
  | Bead color _ _ => bool_decide (color = c)
  | _ => false
  end.

Definition bead_count (c : PaletteColor) (marks : list (Z * Z * Mark)) : nat :=
  length (filter (λ pm, is_bead_of c pm.2 = true) marks).

End Pdf.

(** Every entry of a grid sits at the key of a board position and holds the
    identifier of a palette colour. *)
Definition grid_ok (b : BoardSpec) (pal : list PaletteColor) (g : Grid)
    : Prop :=
  ∀ k v, g !! k = Some v → k ∈ all_keys b ∧ v ∈ color_id <$> pal.

(** What the views maintain in the store. *)
Definition ui_ok (s : AppState) : Prop :=
  history_ok s ∧
  activeTool s ≠ Line ∧
  (selectedColorId s ∈ color_id <$> palette s) ∧
  ("" ∉ color_id <$> palette s) ∧
  grid_ok (board s) (palette s) (cells s) ∧
  Forall (grid_ok (board s) (palette s)) (history s).

(** A sequence of calls on the store with references. *)
Fixpoint ref_run (ops : list Op) (σ : RefStore.Heap * RefStore.RefState)
    : option (RefStore.Heap * RefStore.RefState) :=
  match ops with
  | [] => Some σ
  | op :: ops' => σ' ← RefStore.step op σ; ref_run ops' σ'
  end.

(** * Properties *)

(** ** The codec *)

Section codec.

Lemma string_forall_app P s1 s2 :
  string_forall P (s1 +:+ s2) = string_forall P s1 && string_forall P s2.
Proof.
  induction s1 as [|c s1 IH]; simpl; [done|].
  by rewrite IH, andb_assoc.
Qed.

Lemma string_app_assoc (s1 s2 s3 : string) :
  (s1 +:+ s2) +:+ s3 = s1 +:+ (s2 +:+ s3).
Proof.
  induction s1 as [|c s1 IH]; [done|].
  change (String c ((s1 +:+ s2) +:+ s3) = String c (s1 +:+ (s2 +:+ s3))).
  by rewrite IH.
Qed.

Lemma pretty_N_char_digit d :
  (d < 10)%N → digit_of (pretty_N_char d) = Some (Z.of_N d).
Proof.
  intros Hd.
  assert (d = 0 ∨ d = 1 ∨ d = 2 ∨ d = 3 ∨ d = 4 ∨ d = 5 ∨ d = 6 ∨ d = 7
          ∨ d = 8 ∨ d = 9)%N as Hcases by lia.
  repeat (destruct Hcases as [->|Hcases]; [reflexivity|]).
  by subst d.
Qed.

Lemma pretty_N_go_app x s :
  pretty_N_go x s = pretty_N_go x "" +:+ s.
Proof.
  revert s. induction (N.lt_wf_0 x) as [x _ IH]; intros s.
  destruct (decide (x = 0%N)) as [->|Hx].
  { by rewrite !pretty_N_go_0. }
  rewrite !(pretty_N_go_step x) by lia.
  assert (x `div` 10 < x)%N as Hlt by (apply N.div_lt; lia).
  rewrite (IH _ Hlt (String _ s)), (IH _ Hlt (String _ "")).
  by rewrite string_app_assoc.
Qed.

Lemma digits_go_app acc s1 s2 :
  digits_go acc (s1 +:+ s2) = digits_go acc s1 ≫= λ a, digits_go a s2.
Proof.
  revert acc. induction s1 as [|c s1 IH]; intros acc; simpl; [done|].
  destruct (digit_of c); [apply IH|done].
Qed.

Lemma digits_go_pretty_N_go x :
  digits_go 0 (pretty_N_go x "") = Some (Z.of_N x).
Proof.
  induction (N.lt_wf_0 x) as [x _ IH].
  destruct (decide (x = 0%N)) as [->|Hx]; [done|].
  rewrite pretty_N_go_step, pretty_N_go_app, digits_go_app by lia.
  rewrite IH by (apply N.div_lt; lia). simpl.
  rewrite pretty_N_char_digit by (apply N.mod_lt; lia).
  f_equal. rewrite (N.div_mod x 10) at 3 by lia. lia.
Qed.

Lemma pretty_N_go_digits x s :
  string_forall (λ c, bool_decide (is_Some (digit_of c))) s = true →
  string_forall (λ c, bool_decide (is_Some (digit_of c))) (pretty_N_go x s)
  = true.
Proof.
  revert s. induction (N.lt_wf_0 x) as [x _ IH]; intros s Hs.
  destruct (decide (x = 0%N)) as [->|Hx]; [by rewrite pretty_N_go_0|].
  rewrite pretty_N_go_step by lia.
  apply IH; [apply N.div_lt; lia|]. simpl.
  rewrite pretty_N_char_digit by (apply N.mod_lt; lia). by rewrite Hs.
Qed.

Lemma pretty_N_go_nonempty x : (0 < x)%N → pretty_N_go x "" ≠ "".
Proof.
  intros Hx. rewrite pretty_N_go_step, pretty_N_go_app by done.
  by destruct (pretty_N_go _ "").
Qed.

Lemma is_digit_num_char c : is_digit c = true → num_char c = true.
Proof. unfold is_digit, num_char. by intros ->. Qed.

Lemma string_forall_impl (P Q : ascii → bool) s :
  (∀ c, P c = true → Q c = true) →
  string_forall P s = true → string_forall Q s = true.
Proof.
  intros HPQ. induction s as [|c s IH]; simpl; [done|].
  rewrite !andb_true_iff. intros [Hc Hs]. split; [by apply HPQ|by apply IH].
Qed.

(** The rendering of a positive number: a non-empty run of digits whose
    value is the number. *)
Lemma pretty_positive_spec (p : positive) :
  pretty p ≠ "" ∧ string_forall is_digit (pretty p) = true ∧
  digits_go 0 (pretty p) = Some (Z.pos p).
Proof.
  unfold pretty, pretty_positive, pretty, pretty_N.
  rewrite decide_False by done.
  split_and!.
  - by apply pretty_N_go_nonempty.
  - by apply pretty_N_go_digits.
  - by rewrite digits_go_pretty_N_go.
Qed.

Lemma pretty_Z_num_chars (z : Z) : string_forall num_char (pretty z) = true.
Proof.
  destruct z as [|p|p]; [done|..]; unfold pretty, pretty_Z.
  - eapply string_forall_impl; [apply is_digit_num_char|].
    apply pretty_positive_spec.
  - simpl. eapply string_forall_impl; [apply is_digit_num_char|].
    apply pretty_positive_spec.
Qed.

Lemma num_char_not_space c : num_char c = true → is_space c = false.
Proof.
  unfold num_char. rewrite orb_true_iff, !bool_decide_eq_true.
  intros [[d Hd]| ->]; [|done].
  destruct c as [[] [] [] [] [] [] [] []]; by simplify_eq/=.
Qed.

Lemma num_char_not_comma c : num_char c = true → c ≠ ","%char.
Proof.
  unfold num_char. rewrite orb_true_iff, !bool_decide_eq_true.
  intros [[d Hd]| ->]; [|done]. by intros ->.
Qed.

Lemma is_digit_not_sign c :
  is_digit c = true → c ≠ "+"%char ∧ c ≠ "-"%char.
Proof.
  unfold is_digit. rewrite bool_decide_eq_true. intros [d Hd].
  split; by intros ->.
Qed.

Lemma trim_left_id c s : is_space c = false → trim_left (String c s) = String c s.
Proof. simpl. by intros ->. Qed.

Lemma trim_right_id s :
  string_forall (λ c, negb (is_space c)) s = true → trim_right s = s.
Proof.
  induction s as [|c s IH]; simpl; [done|].
  rewrite andb_true_iff, negb_true_iff. intros [Hc Hs].
  rewrite IH by done. rewrite Hc. by destruct s.
Qed.

Lemma trim_num_chars s : string_forall num_char s = true → trim s = s.
Proof.
  intros Hs. unfold trim.
  assert (string_forall (λ c, negb (is_space c)) s = true) as Hns.
  { eapply string_forall_impl; [|done].
    intros c Hc. by rewrite (num_char_not_space c Hc). }
  destruct s as [|c s]; [done|].
  simpl in Hs. apply andb_true_iff in Hs as [Hc _].
  rewrite trim_left_id by by apply num_char_not_space.
  by apply trim_right_id.
Qed.

Lemma unsigned_literal_pretty (p : positive) :
  unsigned_literal (pretty p) = Some (Z.pos p).
Proof.
  destruct (pretty_positive_spec p) as (Hne & _ & Hval).
  unfold unsigned_literal. by destruct (pretty p).
Qed.

(** [Number] reads back what the template literal printed. *)
Lemma Number_pretty (z : Z) : Number (pretty z) = Int z.
Proof.
  unfold Number. rewrite trim_num_chars by apply pretty_Z_num_chars.
  destruct z as [|p|p]; [done|..]; unfold pretty at 1, pretty_Z.
  - destruct (pretty_positive_spec p) as (Hne & Hdig & _).
    pose proof (unsigned_literal_pretty p) as Hval.
    destruct (pretty p) as [|c r]; [done|].
    simpl in Hdig. apply andb_true_iff in Hdig as [Hc _].
    apply is_digit_not_sign in Hc as [??].
    cbv beta iota. rewrite !decide_False by done. by rewrite Hval.
  - change ("-" +:+ pretty p) with (String "-"%char (pretty p)).
    cbv beta iota. rewrite decide_False, decide_True by done.
    by rewrite unsigned_literal_pretty.
Qed.

Lemma split_no_sep sep s :
  string_forall (λ c, bool_decide (c ≠ sep)) s = true → split sep s = [s].
Proof.
  induction s as [|c s IH]; simpl; [done|].
  rewrite andb_true_iff, bool_decide_eq_true. intros [Hc Hs].
  rewrite decide_False by done. by rewrite IH.
Qed.

Lemma split_app_sep sep s1 s2 :
  string_forall (λ c, bool_decide (c ≠ sep)) s1 = true →
  split sep (s1 +:+ String sep s2) = s1 :: split sep s2.
Proof.
  induction s1 as [|c s1 IH]; simpl.
  - intros _. by rewrite decide_True.
  - rewrite andb_true_iff, bool_decide_eq_true. intros [Hc Hs].
    rewrite decide_False by done. by rewrite IH.
Qed.

Lemma pretty_Z_no_comma (z : Z) :
  string_forall (λ c, bool_decide (c ≠ ","%char)) (pretty z) = true.
Proof.
  eapply string_forall_impl; [|apply pretty_Z_num_chars].
  intros c Hc. apply bool_decide_eq_true. by apply num_char_not_comma.
Qed.

Lemma parseKey_makeKey (x y : Z) :
  parseKey (makeKey x y) = {| pt_x := Some (Int x); pt_y := Some (Int y) |}.
Proof.
  unfold parseKey, makeKey.
  change ("," +:+ pretty y) with (String ","%char (pretty y)).
  rewrite split_app_sep by apply pretty_Z_no_comma.
  rewrite split_no_sep by apply pretty_Z_no_comma.
  simpl. by rewrite !Number_pretty.
Qed.

(** Distinct positions have distinct keys. *)
Lemma makeKey_inj x1 y1 x2 y2 :
  makeKey x1 y1 = makeKey x2 y2 → x1 = x2 ∧ y1 = y2.
Proof.
  intros Heq. apply (f_equal parseKey) in Heq.
  rewrite !parseKey_makeKey in Heq. by simplify_eq.
Qed.

End codec.

(** C9. Codec round trip: for all non-negative integers [x] and [y] (so for
    all [x], [y] in [0,1000)), decoding the key that [makeKey] builds gives
    the pair back, [parseKey (makeKey x y) = { x, y }]; the key is the
    decimal [x], a comma, the decimal [y]. *)
Theorem codec_round_trip (x y : Z) :
  0 ≤ x → 0 ≤ y →
  makeKey x y = pretty x +:+ "," +:+ pretty y ∧
  parseKey (makeKey x y) = {| pt_x := Some (Int x); pt_y := Some (Int y) |}.
Proof. intros _ _. split; [done|apply parseKey_makeKey]. Qed.

Lemma codec_round_trip_witness :
  makeKey 999 0 = pretty 999 +:+ "," +:+ pretty 0 ∧
  parseKey (makeKey 999 0) = {| pt_x := Some (Int 999); pt_y := Some (Int 0) |}.
Proof. apply (codec_round_trip 999 0); lia. Defined.

Example makeKey_12_7 : makeKey 12 7 = "12,7".
Proof. reflexivity. Qed.

(** ** Termination of the fill loop *)

Section fill_terminates.
Context (b : BoardSpec) (targetColor : option string) (sel : string).

Lemma out_of_bounds_false x y :
  out_of_bounds b x y = false ↔ in_bounds b x y.
Proof.
  unfold out_of_bounds, in_bounds.
  rewrite !orb_false_iff, !Z.ltb_ge, !Z.leb_gt. lia.
Qed.

Lemma out_of_bounds_true x y :
  out_of_bounds b x y = true ↔ ¬ in_bounds b x y.
Proof.
  rewrite <-out_of_bounds_false. by destruct (out_of_bounds b x y).
Qed.

Lemma elem_of_all_positions x y :
  (x, y) ∈ all_positions b ↔ in_bounds b x y.
Proof.
  unfold all_positions, in_bounds.
  rewrite list_elem_of_In, in_prod_iff, <-!list_elem_of_In, !elem_of_seqZ.
  lia.
Qed.

Lemma elem_of_all_keys x y :
  makeKey x y ∈ all_keys b ↔ in_bounds b x y.
Proof.
  unfold all_keys. rewrite elem_of_list_to_set, list_elem_of_fmap. split.
  - intros ([x' y'] & Hkey & Hin). simpl in Hkey.
    apply makeKey_inj in Hkey as [-> ->]. by apply elem_of_all_positions.
  - intros Hin. exists (x, y). split; [done|by apply elem_of_all_positions].
Qed.

Lemma size_list_to_set_le (l : list string) :
  (size (list_to_set l : gset string) ≤ length l)%nat.
Proof.
  induction l as [|k l IH].
  - rewrite list_to_set_nil, size_empty. done.
  - rewrite list_to_set_cons, size_union_alt, size_singleton. simpl.
    assert (size (list_to_set l ∖ {[k]} : gset string)
            ≤ size (list_to_set l : gset string))%nat
      by (apply subseteq_size; set_solver).
    lia.
Qed.

Lemma size_all_keys :
  (size (all_keys b) ≤ Z.to_nat (cols b) * Z.to_nat (rows b))%nat.
Proof.
  unfold all_keys. etrans; [apply size_list_to_set_le|].
  unfold all_positions.
  by rewrite length_fmap, length_prod, !length_seqZ.
Qed.

(** Every iteration pops one position; four are pushed only when a key of
    the board enters [visited], which can happen once per key. *)
Lemma fill_loop_enough_fuel fuel m queue visited :
  (length queue + 4 * size (all_keys b ∖ visited) ≤ fuel)%nat →
  is_Some (fill_loop fuel b targetColor sel m queue visited).
Proof.
  revert m queue visited.
  induction fuel as [|fuel IH]; intros m [|[x y] queue] visited Hfuel;
    simpl in *; try done; [lia|].
  destruct (decide (makeKey x y ∈ visited)) as [Hvis|Hvis];
    [apply IH; lia|].
  destruct (out_of_bounds b x y) eqn:Hoob; [apply IH; lia|].
  destruct (decide (m !! makeKey x y = targetColor)); [|apply IH; lia].
  apply IH. simpl.
  apply out_of_bounds_false, elem_of_all_keys in Hoob.
  assert (all_keys b ∖ visited
          = {[makeKey x y]} ∪ all_keys b ∖ ({[makeKey x y]} ∪ visited))
    as Hsplit.
  { apply set_eq. intros k.
    destruct (decide (k = makeKey x y)) as [->|]; set_solver. }
  rewrite Hsplit, size_union, size_singleton in Hfuel by set_solver.
  lia.
Qed.

Lemma fill_loop_start_fuel m start :
  is_Some (fill_loop (fill_fuel b) b targetColor sel m [start] ∅).
Proof.
  apply fill_loop_enough_fuel. unfold fill_fuel. simpl.
  rewrite difference_empty_L. pose proof size_all_keys. lia.
Qed.

End fill_terminates.

(** ** Correctness of the fill loop *)

Section fill_correct.
Context (b : BoardSpec) (g : Grid) (start : Z * Z) (sel : string).
Hypothesis start_in_bounds : in_bounds b start.1 start.2.

Local Abbreviation target := (g !! key_of start).
Local Abbreviation inv := (fill_inv b g start sel).

Lemma key_of_inj p q : key_of p = key_of q → p = q.
Proof.
  destruct p, q. unfold key_of. simpl.
  intros [-> ->]%makeKey_inj. done.
Qed.

Lemma region_same_colour p :
  region b g start p → in_bounds b p.1 p.2 ∧ g !! key_of p = target.
Proof. by destruct 1. Qed.

Lemma fill_inv_init : inv g [start] ∅.
Proof.
  split_and!.
  - intros k. by rewrite decide_False by set_solver.
  - set_solver.
  - set_solver.
  - right. set_solver.
  - intros q ->%list_elem_of_singleton _ _. constructor.
Qed.

(** A popped position that is visited already, or is not an eligible
    position, is dropped. *)
Lemma fill_inv_skip m p queue visited :
  inv m (p :: queue) visited →
  key_of p ∈ visited ∨ ¬ (in_bounds b p.1 p.2 ∧ g !! key_of p = target) →
  inv m queue visited.
Proof.
  intros (Hm & Hvis & Hadj & Hstart & Hq) Hskip. split_and!; try done.
  - intros p' q Hp' Hpq Hin Hcol.
    destruct (Hadj p' q Hp' Hpq Hin Hcol) as [?|Hmem]; [by left|].
    apply elem_of_cons in Hmem as [->|?]; [|by right].
    destruct Hskip as [?|Hne]; [by left|]. by destruct Hne.
  - destruct Hstart as [?|Hmem]; [by left|].
    apply elem_of_cons in Hmem as [->|?]; [|by right].
    destruct Hskip as [?|Hne]; [by left|]. by destruct Hne.
  - intros q Hmem. apply Hq. by right.
Qed.

(** A popped eligible position that still holds the target colour is
    recoloured, marked, and its four neighbours are pushed. *)
Lemma fill_inv_paint m x y queue visited :
  inv m ((x, y) :: queue) visited →
  makeKey x y ∉ visited →
  in_bounds b x y →
  m !! makeKey x y = target →
  inv (<[makeKey x y := sel]> m)
      ((x, y - 1) :: (x, y + 1) :: (x - 1, y) :: (x + 1, y) :: queue)
      ({[makeKey x y]} ∪ visited).
Proof.
  intros (Hm & Hvis & Hadj & Hstart & Hq) Hnew Hin Hcol.
  assert (g !! key_of (x, y) = target) as Hg.
  { specialize (Hm (makeKey x y)). rewrite decide_False in Hm by done.
    change (key_of (x, y)) with (makeKey x y). by rewrite <-Hm. }
  assert (region b g start (x, y)) as Hreg.
  { apply Hq; [by left|done|done]. }
  split_and!.
  - intros k. destruct (decide (k = makeKey x y)) as [->|Hk].
    + rewrite lookup_insert_eq. by rewrite decide_True by set_solver.
    + rewrite lookup_insert_ne, Hm by done.
      destruct (decide (k ∈ visited)).
      * by rewrite decide_True by set_solver.
      * by rewrite decide_False by set_solver.
  - intros k [->%elem_of_singleton|Hk]%elem_of_union; [|by apply Hvis].
    by exists (x, y).
  - intros p q [Hp%elem_of_singleton|Hp]%elem_of_union Hpq Hinq Hcolq.
    + apply (key_of_inj p (x, y)) in Hp as ->. right.
      destruct Hpq as [->| [->| [->| ->]]]; simpl; set_solver.
    + destruct (Hadj p q Hp Hpq Hinq Hcolq) as [?|Hmem]; [left; set_solver|].
      apply elem_of_cons in Hmem as [->|?]; [left|right]; set_solver.
  - destruct Hstart as [?|Hmem]; [left; set_solver|].
    apply elem_of_cons in Hmem as [->|?]; [left|right]; set_solver.
  - intros q Hmem Hinq Hcolq.
    assert (adjacent (x, y) q ∨ q ∈ queue) as [Hadjq|?].
    { unfold adjacent. simpl.
      repeat (apply elem_of_cons in Hmem as [->|Hmem]; [by auto|]).
      by right. }
    + by apply (region_step b g start (x, y) q).
    + apply Hq; [by right|done|done].
Qed.

Lemma fill_loop_inv fuel m queue visited m' :
  inv m queue visited →
  fill_loop fuel b target sel m queue visited = Some m' →
  ∃ visited', inv m' [] visited'.
Proof.
  revert m queue visited.
  induction fuel as [|fuel IH]; intros m [|[x y] queue] visited Hinv Hloop;
    simpl in Hloop; simplify_eq; eauto.
  destruct (decide (makeKey x y ∈ visited)) as [Hvis|Hvis].
  { eapply IH; [|done]. eapply fill_inv_skip; [done|by left]. }
  destruct (out_of_bounds b x y) eqn:Hoob.
  { eapply IH; [|done]. eapply fill_inv_skip; [done|right].
    apply out_of_bounds_true in Hoob. simpl. tauto. }
  apply out_of_bounds_false in Hoob.
  destruct (decide (m !! makeKey x y = target)) as [Hcol|Hcol].
  { eapply IH; [|done]. by apply fill_inv_paint. }
  eapply IH; [|done]. eapply fill_inv_skip; [done|right].
  intros [_ Hg]. apply Hcol. destruct Hinv as (Hm & _).
  rewrite Hm, decide_False by done. done.
Qed.

(** With the queue empty, the visited keys are the keys of the region. *)
Lemma fill_inv_done m visited p :
  inv m [] visited → region b g start p → key_of p ∈ visited.
Proof.
  intros (Hm & Hvis & Hadj & Hstart & Hq). induction 1 as [|p q _ IH Hpq Hin Hcol].
  - destruct Hstart as [?|Hmem]; [done|]. by apply elem_of_nil in Hmem.
  - destruct (Hadj p q IH Hpq Hin Hcol) as [?|Hmem]; [done|].
    by apply elem_of_nil in Hmem.
Qed.

Lemma fill_loop_correct m' :
  fill_loop (fill_fuel b) b target sel g [start] ∅ = Some m' →
  (∀ p, region b g start p → m' !! key_of p = Some sel) ∧
  (∀ k, (∀ p, region b g start p → k ≠ key_of p) → m' !! k = g !! k).
Proof.
  intros Hloop.
  destruct (fill_loop_inv _ _ _ _ _ fill_inv_init Hloop) as [V HV].
  pose proof HV as (Hm & Hvis & _). split.
  - intros p Hp. rewrite Hm.
    by rewrite decide_True by by eapply fill_inv_done.
  - intros k Hk. rewrite Hm. rewrite decide_False; [done|].
    intros (p & Hp & ->)%Hvis. by eapply Hk.
Qed.

End fill_correct.

(** [fill] returns for every start position and every state. *)
Lemma fill_total x y (s : AppState) : is_Some (fill x y s).
Proof.
  unfold fill. case_decide; [done|].
  destruct (fill_loop_start_fuel (board s) (cells s !! makeKey x y)
              (selectedColorId s) (cells s) (x, y)) as [m ->].
  done.
Qed.

(** ** The history *)

Section commit.
Context {G : Type}.
Implicit Types (s : StoreState G) (c : G).

Lemma commit_cells s c : cells (commit s c) = c.
Proof. done. Qed.

Lemma commit_history s c :
  history (commit s c) = take (S (historyPointer s)) (history s) ++ [c].
Proof. done. Qed.

Lemma commit_pointer s c :
  historyPointer (commit s c)
  = length (take (S (historyPointer s)) (history s)).
Proof.
  unfold commit, push_history. simpl. rewrite length_app. simpl. lia.
Qed.

Lemma commit_pointer_last s c :
  historyPointer (commit s c) = (length (history (commit s c)) - 1)%nat.
Proof. done. Qed.

End commit.

Section history.
Implicit Types s : AppState.

Lemma commit_history_ok s c : history_ok (commit s c).
Proof.
  unfold history_ok. rewrite commit_pointer, commit_history, commit_cells.
  split.
  - rewrite length_app. simpl. lia.
  - by rewrite lookup_app_r, Nat.sub_diag.
Qed.

Lemma commit_length s c :
  history_ok s →
  length (history (commit s c)) = (historyPointer s + 2)%nat.
Proof.
  intros [Hlt _]. rewrite commit_history, length_app, length_take_le by lia.
  simpl. lia.
Qed.

Lemma undo_history_ok s s' : history_ok s → undo s = Some s' → history_ok s'.
Proof.
  unfold undo. intros [Hlt Hcur] Hundo.
  case_decide; simplify_option_eq; [|done].
  split; simpl; [lia|done].
Qed.

Lemma redo_history_ok s s' : history_ok s → redo s = Some s' → history_ok s'.
Proof.
  unfold redo. intros [Hlt Hcur] Hredo.
  case_decide; simplify_option_eq; [|done].
  split; simpl; [lia|done].
Qed.

Lemma undo_total s : history_ok s → is_Some (undo s).
Proof.
  unfold undo. intros [Hlt Hcur]. case_decide; [|done].
  destruct (lookup_lt_is_Some_2 (history s) (historyPointer s - 1))
    as [c ->]; [lia|done].
Qed.

Lemma redo_total s : is_Some (redo s).
Proof.
  unfold redo. case_decide; [|done].
  destruct (lookup_lt_is_Some_2 (history s) (historyPointer s + 1))
    as [c ->]; [lia|done].
Qed.

Lemma setCell_history_ok x y s : history_ok s → history_ok (setCell x y s).
Proof.
  unfold setCell. intros Hok. case_decide; [done|apply commit_history_ok].
Qed.

Lemma fill_history_ok x y s s' :
  history_ok s → fill x y s = Some s' → history_ok s'.
Proof.
  unfold fill. intros Hok Hfill.
  case_decide; simplify_option_eq; [done|apply commit_history_ok].
Qed.

Lemma step_history_ok op s s' :
  history_ok s → step op s = Some s' → history_ok s'.
Proof.
  intros Hok Hstep. destruct op; simpl in Hstep; simplify_eq;
    eauto using setCell_history_ok, fill_history_ok, commit_history_ok,
      undo_history_ok, redo_history_ok.
  split; simpl; [lia|done].
Qed.

Lemma step_total op s : history_ok s → is_Some (step op s).
Proof.
  intros Hok. destruct op; simpl;
    eauto using fill_total, undo_total, redo_total.
Qed.

Lemma run_app ops1 ops2 s :
  run (ops1 ++ ops2) s = run ops1 s ≫= run ops2.
Proof.
  revert s. induction ops1 as [|op ops1 IH]; intros s; simpl; [done|].
  destruct (step op s) as [s'|]; simpl; [apply IH|done].
Qed.

Lemma run_history_ok ops s s' :
  history_ok s → run ops s = Some s' → history_ok s'.
Proof.
  revert s. induction ops as [|op ops IH]; intros s Hok Hrun;
    simpl in Hrun; simplify_option_eq; eauto using step_history_ok.
Qed.

Lemma run_total ops s : history_ok s → is_Some (run ops s).
Proof.
  revert s. induction ops as [|op ops IH]; intros s Hok; simpl; [done|].
  destruct (step_total op s Hok) as [s' Hs']. rewrite Hs'. simpl.
  eauto using step_history_ok.
Qed.

Lemma initial_state_history_ok now : history_ok (Store.initial_state now).
Proof. split; simpl; [lia|done]. Qed.

End history.

(** ** Flood fill *)

(** C1. Flood fill: for an in-bounds start position [(x, y)], if the colour
    at [(x, y)] (possibly none) already is the selected colour, [fill] changes
    nothing and adds no history entry; otherwise it recolours to the selected
    colour exactly the maximal 4-connected region (up, down, left, right; no
    diagonals) of cells holding the original colour of the start cell, leaves
    every other cell as it was, and appends one history entry for the whole
    fill. *)
Theorem fill_flood_region (s : AppState) (x y : Z) :
  in_bounds (board s) x y →
  (cells s !! makeKey x y = Some (selectedColorId s) → fill x y s = Some s) ∧
  (cells s !! makeKey x y ≠ Some (selectedColorId s) →
   ∃ s',
     fill x y s = Some s' ∧
     (∀ p, region (board s) (cells s) (x, y) p →
           cells s' !! key_of p = Some (selectedColorId s)) ∧
     (∀ p, ¬ region (board s) (cells s) (x, y) p →
           cells s' !! key_of p = cells s !! key_of p) ∧
     (∀ k, (∀ p, region (board s) (cells s) (x, y) p → k ≠ key_of p) →
           cells s' !! k = cells s !! k) ∧
     history s' = take (historyPointer s + 1) (history s) ++ [cells s'] ∧
     historyPointer s' = (length (history s') - 1)%nat ∧
     board s' = board s ∧ selectedColorId s' = selectedColorId s ∧
     activeTool s' = activeTool s).
Proof.
  intros Hin. split.
  - intros Hsame. unfold fill. by rewrite decide_True.
  - intros Hdiff. unfold fill. rewrite decide_False by done.
    destruct (fill_loop_start_fuel (board s) (cells s !! makeKey x y)
                (selectedColorId s) (cells s) (x, y)) as [m Hloop].
    rewrite Hloop. simpl. exists (commit s m).
    destruct (fill_loop_correct (board s) (cells s) (x, y)
                (selectedColorId s) Hin m Hloop) as [Hreg Hout].
    split_and!; try done.
    + intros p Hp. apply Hout. intros q Hq Heq.
      apply key_of_inj in Heq as ->. by apply Hp.
    + by rewrite commit_history, commit_cells, Nat.add_1_r.
Qed.

Lemma fill_flood_region_witness :
  (cells fresh3 !! makeKey 1 1 = Some (selectedColorId fresh3) →
   fill 1 1 fresh3 = Some fresh3) ∧
  (cells fresh3 !! makeKey 1 1 ≠ Some (selectedColorId fresh3) →
   ∃ s',
     fill 1 1 fresh3 = Some s' ∧
     (∀ p, region (board fresh3) (cells fresh3) (1, 1) p →
           cells s' !! key_of p = Some (selectedColorId fresh3)) ∧
     (∀ p, ¬ region (board fresh3) (cells fresh3) (1, 1) p →
           cells s' !! key_of p = cells fresh3 !! key_of p) ∧
     (∀ k, (∀ p, region (board fresh3) (cells fresh3) (1, 1) p → k ≠ key_of p) →
           cells s' !! k = cells fresh3 !! k) ∧
     history s' = take (historyPointer fresh3 + 1) (history fresh3) ++ [cells s'] ∧
     historyPointer s' = (length (history s') - 1)%nat ∧
     board s' = board fresh3 ∧ selectedColorId s' = selectedColorId fresh3 ∧
     activeTool s' = activeTool fresh3).
Proof. apply (fill_flood_region fresh3 1 1). unfold in_bounds. simpl. lia. Defined.

(** The worked scenario: on the empty 3×3 board, [fill(1,1)] with red colours
    all nine cells in one history step, and [undo] empties the grid again. *)
Example fill_empty_board3 :
  fill 1 1 fresh3 = Some (commit fresh3 board3_all_red).
Proof. vm_compute. reflexivity. Qed.

Example fill_empty_board3_counts :
  size board3_all_red = 9%nat ∧
  length (history (commit fresh3 board3_all_red)) = 2%nat.
Proof. vm_compute. split; reflexivity. Qed.

Example fill_empty_board3_undo :
  undo (commit fresh3 board3_all_red)
  = Some (set_travel (commit fresh3 board3_all_red) ∅ 0).
Proof. vm_compute. reflexivity. Qed.

(** A cell of the same colour that touches the region only diagonally is
    left alone: red at (0,0) and (1,1), blue fill at (1,1). *)
Example fill_no_diagonal :
  cells <$> run [OpSetCell 0 0; OpSetCell 1 1; OpSetColor "blue"; OpFill 1 1]
              fresh3
  = Some (<["1,1" := "blue"]> (<["0,0" := "red"]> ∅)).
Proof. vm_compute. reflexivity. Qed.

(** ** [setCell] *)

Section setCell_facts.
Implicit Types s : AppState.

Lemma target_value_paint s :
  activeTool s ≠ Eraser → target_value s = Some (selectedColorId s).
Proof. intros Htool. unfold target_value. by rewrite decide_False. Qed.

Lemma target_value_erase s : activeTool s = Eraser → target_value s = None.
Proof. intros Htool. unfold target_value. by rewrite decide_True. Qed.

(** The early return: nothing is touched. *)
Lemma setCell_noop x y s :
  cells s !! makeKey x y = target_value s → setCell x y s = s.
Proof. intros Heq. unfold setCell. by rewrite decide_True. Qed.

Lemma setCell_commit x y s :
  cells s !! makeKey x y ≠ target_value s →
  setCell x y s
  = commit s (write_cell (makeKey x y) (target_value s) (cells s)).
Proof. intros Hne. unfold setCell. by rewrite decide_False. Qed.

(** Only the key of the position is written. *)
Lemma write_cell_other key v (m : Grid) k :
  k ≠ key → write_cell key v m !! k = m !! k.
Proof.
  intros Hk. unfold write_cell. destruct v as [v|].
  - case_decide; [by rewrite lookup_delete_ne|by rewrite lookup_insert_ne].
  - by rewrite lookup_delete_ne.
Qed.

(** A defined, non-empty value is stored; [undefined] removes the key. *)
Lemma write_cell_key key v (m : Grid) :
  v ≠ Some "" → write_cell key v m !! key = v.
Proof.
  intros Hv. unfold write_cell. destruct v as [v|].
  - rewrite decide_False by congruence. by rewrite lookup_insert_eq.
  - by rewrite lookup_delete_eq.
Qed.

(** The empty string takes the [delete] branch. *)
Lemma write_cell_empty_string key (m : Grid) :
  write_cell key (Some "") m = delete key m.
Proof. done. Qed.

Lemma setCell_other x y s k :
  k ≠ makeKey x y → cells (setCell x y s) !! k = cells s !! k.
Proof.
  intros Hk. unfold setCell. case_decide; [done|].
  rewrite commit_cells. by apply write_cell_other.
Qed.

Lemma setCell_key x y s :
  target_value s ≠ Some "" →
  cells (setCell x y s) !! makeKey x y = target_value s.
Proof.
  intros Hv. unfold setCell. case_decide; [done|].
  rewrite commit_cells. by apply write_cell_key.
Qed.

(** What [setCell] does when the target value is not the empty string:
    the early return, or one snapshot that differs at the key only. *)
Lemma setCell_spec x y s :
  (cells s !! makeKey x y = target_value s → setCell x y s = s) ∧
  (cells s !! makeKey x y ≠ target_value s →
   let s' := setCell x y s in
   (∀ k, k ≠ makeKey x y → cells s' !! k = cells s !! k) ∧
   (target_value s ≠ Some "" → cells s' !! makeKey x y = target_value s) ∧
   history s' = take (historyPointer s + 1) (history s) ++ [cells s'] ∧
   historyPointer s' = (length (history s') - 1)%nat).
Proof.
  split; [apply setCell_noop|]. intros Hne. simpl. split_and!.
  - intros k. apply setCell_other.
  - apply setCell_key.
  - rewrite setCell_commit by done.
    by rewrite commit_history, commit_cells, Nat.add_1_r.
  - rewrite setCell_commit by done. apply commit_pointer_last.
Qed.

(** With a target value other than the empty string, a second identical
    call finds the cell at its target and returns early. *)
Lemma setCell_twice x y s :
  target_value s ≠ Some "" →
  setCell x y (setCell x y s) = setCell x y s.
Proof.
  intros Hv. apply setCell_noop.
  assert (target_value (setCell x y s) = target_value s) as ->.
  { unfold setCell. by case_decide. }
  by apply setCell_key.
Qed.

End setCell_facts.

(** C2 (behaviour of the code at the empty colour identifier).  [setColor]
    accepts any string.  After [setColor('')] with the pencil, [setCell(0,0)]
    on an empty cell does not return early ([undefined !== '']), takes the
    [delete] branch of [if (newVal)] and pushes a snapshot equal to the old
    grid; the cell still differs from the target, so a second identical call
    pushes again: [history.length] goes from 2 to 3. *)
Theorem setCell_empty_colour_grows_history :
  let s := setColor "" (Store.initial_state 0) in
  let s1 := setCell 0 0 s in
  let s2 := setCell 0 0 s1 in
  activeTool s = Pencil ∧
  cells s1 = cells s ∧ cells s2 = cells s1 ∧
  length (history s) = 1%nat ∧
  length (history s1) = 2%nat ∧
  length (history s2) = 3%nat.
Proof. by vm_compute. Qed.

(** ** Positions outside the board *)

Section out_of_bounds.
Implicit Types s : AppState.

Lemma fill_loop_nil fuel b target sel (m : Grid) visited :
  fill_loop fuel b target sel m [] visited = Some m.
Proof. by destruct fuel. Qed.

(** The loop of [fill] drops a start position outside the board at once. *)
Lemma fill_loop_out_of_bounds b target sel (m : Grid) x y :
  ¬ in_bounds b x y →
  fill_loop (fill_fuel b) b target sel m [(x, y)] ∅ = Some m.
Proof.
  intros Hout%out_of_bounds_true. unfold fill_fuel. simpl.
  rewrite decide_False by set_solver. rewrite Hout.
  apply fill_loop_nil.
Qed.

Lemma fill_out_of_bounds x y s :
  ¬ in_bounds (board s) x y →
  fill x y s = Some s ∨ fill x y s = Some (commit s (cells s)).
Proof.
  intros Hout. unfold fill. case_decide; [by left|right].
  by rewrite fill_loop_out_of_bounds.
Qed.

End out_of_bounds.

(** C6 (the claim fails for [setCell]).  [setCell] has no bounds test: on the
    initial state, [setCell(-1, 0)] stores the selected colour under the key
    [-1,0], a position outside the 30×30 board. *)
Lemma setCell_out_of_bounds_creates_key :
  let s := Store.initial_state 0 in
  ¬ in_bounds (board s) (-1) 0 ∧
  makeKey (-1) 0 = "-1,0" ∧
  cells s !! "-1,0" = None ∧
  cells (setCell (-1) 0 s) !! "-1,0" = Some "red".
Proof.
  split_and!; [|by vm_compute..]. unfold in_bounds. simpl. lia.
Qed.

(** C6, as the code has it.  For a position outside the board: [fill] leaves
    the contents of the grid as they are and creates no key (it returns
    early, or commits a snapshot equal to the live grid); [setCell] does not
    look at the bounds, it touches the key of the position and no other, and
    with a tool other than the eraser and a non-empty colour it stores the
    colour under that key.  The bounds are tested by the callers. *)
Theorem out_of_bounds_behaviour (s : AppState) (x y : Z) :
  ¬ in_bounds (board s) x y →
  (∃ s', fill x y s = Some s' ∧ cells s' = cells s ∧
         (s' = s ∨ s' = commit s (cells s))) ∧
  (∀ k, k ≠ makeKey x y → cells (setCell x y s) !! k = cells s !! k) ∧
  (activeTool s = Eraser → cells (setCell x y s) !! makeKey x y = None) ∧
  (activeTool s ≠ Eraser → selectedColorId s ≠ "" →
   cells (setCell x y s) !! makeKey x y = Some (selectedColorId s)).
Proof.
  intros Hout. split_and!.
  - destruct (fill_out_of_bounds x y s Hout) as [->| ->]; eauto.
  - intros k. apply setCell_other.
  - intros Htool. rewrite setCell_key; rewrite target_value_erase; done.
  - intros Htool Hsel.
    rewrite setCell_key; rewrite target_value_paint by done; congruence.
Qed.

Lemma out_of_bounds_behaviour_witness :
  let s := Store.initial_state 0 in
  (∃ s', fill 30 0 s = Some s' ∧ cells s' = cells s ∧
         (s' = s ∨ s' = commit s (cells s))) ∧
  (∀ k, k ≠ makeKey 30 0 → cells (setCell 30 0 s) !! k = cells s !! k) ∧
  (activeTool s = Eraser → cells (setCell 30 0 s) !! makeKey 30 0 = None) ∧
  (activeTool s ≠ Eraser → selectedColorId s ≠ "" →
   cells (setCell 30 0 s) !! makeKey 30 0 = Some (selectedColorId s)).
Proof.
  apply (out_of_bounds_behaviour (Store.initial_state 0) 30 0).
  unfold in_bounds. simpl. lia.
Defined.

(** ** Loading and exporting *)

Section records.

Lemma foldl_insert_union (r : CellRecord) (acc : Grid) :
  NoDup r.*1 →
  foldl (λ m kv, <[kv.1 := kv.2]> m) acc r = list_to_map r ∪ acc.
Proof.
  revert acc. induction r as [|[k v] r IH]; intros acc Hnodup.
  { simpl. by rewrite (left_id_L ∅ (∪)). }
  rewrite fmap_cons in Hnodup. apply NoDup_cons in Hnodup as [Hk Hnodup].
  simpl. rewrite IH by done.
  rewrite <-insert_union_l. symmetry. apply insert_union_r.
  by apply not_elem_of_list_to_map.
Qed.

(** On an object (distinct keys) the [Map] constructor yields the map of
    the entries. *)
Lemma recordToMap_list_to_map (r : CellRecord) :
  NoDup r.*1 → recordToMap r = list_to_map r.
Proof.
  intros Hnodup. unfold recordToMap.
  by rewrite foldl_insert_union, (right_id_L ∅ (∪)).
Qed.

Lemma recordToMap_lookup (r : CellRecord) k v :
  NoDup r.*1 → recordToMap r !! k = Some v ↔ (k, v) ∈ r.
Proof.
  intros Hnodup. rewrite recordToMap_list_to_map by done.
  symmetry. by apply elem_of_list_to_map.
Qed.

Lemma recordToMap_mapToRecord (m : Grid) : recordToMap (mapToRecord m) = m.
Proof.
  unfold mapToRecord.
  rewrite recordToMap_list_to_map by apply NoDup_fst_map_to_list.
  apply list_to_map_to_list.
Qed.

Lemma mapToRecord_recordToMap (r : CellRecord) :
  NoDup r.*1 → mapToRecord (recordToMap r) ≡ₚ r.
Proof.
  intros Hnodup. unfold mapToRecord.
  rewrite recordToMap_list_to_map by done. by apply map_to_list_to_map.
Qed.

End records.

(** C7 (the claim fails: nothing is skipped).  [loadPattern] converts the
    cell object with [recordToMap] and never calls [parseKey] or consults the
    palette: the entry with the undecodable key [foo] and the entry with the
    colour [chartreuse], which the palette does not have, are both in the
    loaded grid. *)
Lemma loadPattern_keeps_malformed :
  let s := Store.initial_state 0 in
  let p := {| pattern_id := "p1"; pattern_metadata := metadata s;
              pattern_cells := [("foo", "red"); ("1,1", "chartreuse");
                                ("0,0", "red")] |} in
  malformed_entry (palette s) ("foo", "red") = true ∧
  cells (loadPattern p s) !! "foo" = Some "red" ∧
  malformed_entry (palette s) ("1,1", "chartreuse") = true ∧
  cells (loadPattern p s) !! "1,1" = Some "chartreuse".
Proof. by vm_compute. Qed.

(** C7, as the code has it.  [loadPattern] is defined on every pattern (it
    does not fail) and validates nothing: the loaded grid holds exactly the
    entries of the pattern's cell object, malformed or not, so every
    well-formed entry is loaded; the history is reset to that grid alone. *)
Theorem loadPattern_loads_every_entry (p : Pattern) (s : AppState) :
  NoDup (pattern_cells p).*1 →
  (∀ k v, cells (loadPattern p s) !! k = Some v ↔ (k, v) ∈ pattern_cells p) ∧
  history (loadPattern p s) = [cells (loadPattern p s)] ∧
  historyPointer (loadPattern p s) = 0%nat ∧
  metadata (loadPattern p s) = pattern_metadata p.
Proof.
  intros Hnodup. split_and!; try done.
  intros k v. by apply recordToMap_lookup.
Qed.

Lemma loadPattern_loads_every_entry_witness :
  let s := Store.initial_state 0 in
  let p := {| pattern_id := "p1"; pattern_metadata := metadata s;
              pattern_cells := [("foo", "red"); ("0,0", "blue")] |} in
  (∀ k v, cells (loadPattern p s) !! k = Some v ↔ (k, v) ∈ pattern_cells p) ∧
  history (loadPattern p s) = [cells (loadPattern p s)] ∧
  historyPointer (loadPattern p s) = 0%nat ∧
  metadata (loadPattern p s) = pattern_metadata p.
Proof.
  apply (loadPattern_loads_every_entry
           {| pattern_id := "p1";
              pattern_metadata := metadata (Store.initial_state 0);
              pattern_cells := [("foo", "red"); ("0,0", "blue")] |}
           (Store.initial_state 0)).
  simpl. apply (bool_decide_unpack _). vm_compute. reflexivity.
Defined.

(** C10. Export then load: in every state, [loadPattern(exportPattern())]
    leaves the grid as it was, position by position, because [recordToMap]
    undoes [mapToRecord]; afterwards the history is that grid alone, with the
    pointer at 0. *)
Theorem load_export_round_trip (s : AppState) (uuid : string) (now : Z) :
  let s' := loadPattern (exportPattern uuid now s) s in
  recordToMap (mapToRecord (cells s)) = cells s ∧
  cells s' = cells s ∧
  (∀ x y, cells s' !! makeKey x y = cells s !! makeKey x y) ∧
  history s' = [cells s] ∧
  historyPointer s' = 0%nat.
Proof.
  simpl. unfold loadPattern, exportPattern. simpl.
  rewrite recordToMap_mapToRecord. done.
Qed.

(** ** Editing sessions, undo and redo *)

Section sessions.
Implicit Types s : AppState.

(** A mutation that gets past its early return commits a snapshot. *)
Lemma mutation_commits op s :
  is_mutation op = true → is_noop op s = false →
  ∃ c, step op s = Some (commit s c).
Proof.
  intros Hmut Hnoop. destruct op as [x y|x y| | | | | | | |]; try done.
  - simpl in *. apply bool_decide_eq_false in Hnoop.
    unfold setCell. rewrite decide_False by done. eauto.
  - simpl in *. apply bool_decide_eq_false in Hnoop.
    unfold fill. rewrite decide_False by done.
    destruct (fill_loop_start_fuel (board s) (cells s !! makeKey x y)
                (selectedColorId s) (cells s) (x, y)) as [m ->].
    simpl. eauto.
  - simpl. unfold clearBoard. eauto.
Qed.

(** A mutation stopped by its early return leaves the state as it is. *)
Lemma noop_step op s :
  is_mutation op = true → is_noop op s = true → step op s = Some s.
Proof.
  intros Hmut Hnoop. destruct op as [x y|x y| | | | | | | |]; try done.
  - simpl in *. apply bool_decide_eq_true in Hnoop.
    unfold setCell. by rewrite decide_True.
  - simpl in *. apply bool_decide_eq_true in Hnoop.
    unfold fill. by rewrite decide_True.
Qed.

Lemma selection_step op s :
  is_selection op = true →
  ∃ s', step op s = Some s' ∧ cells s' = cells s ∧
        history s' = history s ∧ historyPointer s' = historyPointer s.
Proof. intros Hsel. destruct op; try done; simpl; eauto. Qed.

Lemma redo_at_tip s :
  historyPointer s = (length (history s) - 1)%nat → redo s = Some s.
Proof. intros Htip. unfold redo. rewrite decide_False by lia. done. Qed.

Lemma at_tip_history_ok n s : at_tip n s → history_ok s.
Proof. intros (Hp & Hlen & _ & Hcur). split; [lia|by rewrite Hp]. Qed.

Lemma at_tip_commit n s c : at_tip n s → at_tip (S n) (commit s c).
Proof.
  intros (Hp & Hlen & H0 & Hcur).
  assert (take (S (historyPointer s)) (history s) = history s) as Htake
    by (apply take_ge; lia).
  unfold at_tip.
  rewrite commit_pointer, commit_history, commit_cells, Htake, length_app.
  simpl. split_and!; [lia|lia|..].
  - by rewrite lookup_app_l by lia.
  - rewrite lookup_app_r by lia. by replace (S n - length (history s))%nat
      with 0%nat by lia.
Qed.

Lemma effective_edits_at_tip ops n s :
  at_tip n s → effective_edits ops s = true →
  ∃ s', run ops s = Some s' ∧ at_tip (n + mutation_count ops) s'.
Proof.
  revert n s. induction ops as [|op ops IH]; intros n s Htip Heff.
  { exists s. split; [done|]. unfold mutation_count. simpl.
    by rewrite Nat.add_0_r. }
  simpl in Heff. apply andb_true_iff in Heff as [Hop Hrest].
  apply orb_true_iff in Hop as [Hsel|Hmut].
  - destruct (selection_step op s Hsel) as (s1 & Hs1 & Hc & Hh & Hp).
    rewrite Hs1 in Hrest.
    destruct (IH n s1) as (s' & Hrun & Htip'); [|done|].
    { destruct Htip as (? & ? & ? & ?). unfold at_tip.
      by rewrite Hc, Hh, Hp. }
    exists s'. simpl. rewrite Hs1. simpl. split; [done|].
    unfold mutation_count in *. rewrite filter_cons_False; [done|].
    destruct op; naive_solver.
  - apply andb_true_iff in Hmut as [Hmut Hnoop].
    apply negb_true_iff in Hnoop.
    destruct (mutation_commits op s Hmut Hnoop) as [c Hs1].
    rewrite Hs1 in Hrest.
    destruct (IH (S n) (commit s c)) as (s' & Hrun & Htip');
      [by apply at_tip_commit|done|].
    exists s'. simpl. rewrite Hs1. simpl. split; [done|].
    unfold mutation_count in *. rewrite filter_cons_True by done. simpl.
    by replace (n + S (length (filter (λ op, is_mutation op = true) ops)))%nat
      with (S n + length (filter (λ op, is_mutation op = true) ops))%nat
      by lia.
Qed.

Lemma undo_many k s :
  history_ok s → (k ≤ historyPointer s)%nat →
  ∃ s', run (replicate k OpUndo) s = Some s' ∧
        history s' = history s ∧
        historyPointer s' = (historyPointer s - k)%nat ∧
        history s !! (historyPointer s - k)%nat = Some (cells s').
Proof.
  revert s. induction k as [|k IH]; intros s Hok Hk.
  { exists s. destruct Hok as [? Hcur]. simpl.
    by rewrite Nat.sub_0_r. }
  destruct (lookup_lt_is_Some_2 (history s) (historyPointer s - 1))
    as [c Hc]; [destruct Hok; lia|].
  assert (undo s = Some (set_travel s c (historyPointer s - 1))) as Hundo.
  { unfold undo. rewrite decide_True by lia. by rewrite Hc. }
  destruct (IH (set_travel s c (historyPointer s - 1)))
    as (s' & Hrun & Hh & Hp & Hcur).
  { eapply undo_history_ok; done. }
  { simpl. lia. }
  exists s'. simpl in *. rewrite Hundo. simpl. split_and!; [done|done|lia|].
  by replace (historyPointer s - S k)%nat
    with (historyPointer s - 1 - k)%nat by lia.
Qed.

Lemma redo_many k s :
  history_ok s → (historyPointer s + k < length (history s))%nat →
  ∃ s', run (replicate k OpRedo) s = Some s' ∧
        history s' = history s ∧
        historyPointer s' = (historyPointer s + k)%nat ∧
        history s !! (historyPointer s + k)%nat = Some (cells s').
Proof.
  revert s. induction k as [|k IH]; intros s Hok Hk.
  { exists s. destruct Hok as [? Hcur]. simpl.
    by rewrite Nat.add_0_r. }
  destruct (lookup_lt_is_Some_2 (history s) (historyPointer s + 1))
    as [c Hc]; [lia|].
  assert (redo s = Some (set_travel s c (historyPointer s + 1))) as Hredo.
  { unfold redo. rewrite decide_True by lia. by rewrite Hc. }
  destruct (IH (set_travel s c (historyPointer s + 1)))
    as (s' & Hrun & Hh & Hp & Hcur).
  { eapply redo_history_ok; done. }
  { simpl. lia. }
  exists s'. simpl in *. rewrite Hredo. simpl. split_and!; [done|done|lia|].
  by replace (historyPointer s + S k)%nat
    with (historyPointer s + 1 + k)%nat by lia.
Qed.

Lemma fresh_engine_at_tip s : fresh_engine s → at_tip 0 s.
Proof.
  intros (Hc & Hh & Hp). unfold at_tip. rewrite Hh, Hp, Hc. done.
Qed.

Lemma run_prefix_history_ok pre ops s :
  history_ok s → pre `prefix_of` ops →
  ∃ s', run pre s = Some s' ∧ history_ok s'.
Proof.
  intros Hok _. destruct (run_total pre s Hok) as [s' Hs'].
  eauto using run_history_ok.
Qed.

End sessions.

(** C3. Undo/redo symmetry: for an editing session of [N] mutations that are
    not no-ops ([setCell], [fill], [clearBoard], with changes of the
    selection in between), applied to a fresh engine (history of length 1
    holding the empty grid, pointer 0): [N] calls of [undo] bring [cells]
    back to the empty grid, [N] calls of [redo] after that restore the final
    grid, and at every point of the whole run the pointer is in
    [[0, history.length - 1]]. *)
Theorem undo_redo_symmetry (s0 : AppState) (ops : list Op) :
  fresh_engine s0 →
  effective_edits ops s0 = true →
  ∃ sN sU sR,
    run ops s0 = Some sN ∧
    run (replicate (mutation_count ops) OpUndo) sN = Some sU ∧
    cells sU = ∅ ∧
    run (replicate (mutation_count ops) OpRedo) sU = Some sR ∧
    cells sR = cells sN ∧
    ∀ pre,
      pre `prefix_of` ops ++ replicate (mutation_count ops) OpUndo
                          ++ replicate (mutation_count ops) OpRedo →
      ∃ s, run pre s0 = Some s ∧
           (0 ≤ historyPointer s ≤ length (history s) - 1)%nat ∧
           (0 < length (history s))%nat.
Proof.
  intros Hfresh Heff.
  pose proof (fresh_engine_at_tip s0 Hfresh) as Htip0.
  destruct (effective_edits_at_tip ops 0 s0 Htip0 Heff)
    as (sN & HrunN & HtipN).
  simpl in HtipN. set (N := mutation_count ops) in *.
  pose proof HtipN as (HpN & HlenN & H0N & HcurN).
  destruct (undo_many N sN) as (sU & HrunU & HhU & HpU & HcU);
    [by eapply at_tip_history_ok|lia|].
  assert (history_ok sU) as HokU.
  { eapply run_history_ok; [|done]. by eapply at_tip_history_ok. }
  destruct (redo_many N sU) as (sR & HrunR & HhR & HpR & HcR);
    [done|rewrite HhU; lia|].
  exists sN, sU, sR. split_and!; try done.
  - rewrite HpN, Nat.sub_diag, H0N in HcU. by simplify_eq.
  - rewrite HhU, HpU, HpN, Nat.sub_diag in HcR. simpl in HcR.
    rewrite HcurN in HcR. by simplify_eq.
  - intros pre Hpre.
    destruct (run_prefix_history_ok pre _ s0
                (at_tip_history_ok 0 s0 Htip0) Hpre) as (s & Hrun & [Hlt _]).
    exists s. split; [done|lia].
Qed.

Lemma undo_redo_symmetry_witness :
  let ops := [OpSetCell 0 0; OpSetColor "blue"; OpFill 1 1; OpClearBoard] in
  ∃ sN sU sR,
    run ops fresh3 = Some sN ∧
    run (replicate (mutation_count ops) OpUndo) sN = Some sU ∧
    cells sU = ∅ ∧
    run (replicate (mutation_count ops) OpRedo) sU = Some sR ∧
    cells sR = cells sN ∧
    ∀ pre,
      pre `prefix_of` ops ++ replicate (mutation_count ops) OpUndo
                          ++ replicate (mutation_count ops) OpRedo →
      ∃ s, run pre fresh3 = Some s ∧
           (0 ≤ historyPointer s ≤ length (history s) - 1)%nat ∧
           (0 < length (history s))%nat.
Proof.
  apply (undo_redo_symmetry fresh3
           [OpSetCell 0 0; OpSetColor "blue"; OpFill 1 1; OpClearBoard]).
  - split_and!; reflexivity.
  - vm_compute. reflexivity.
Defined.

(** C4. A new edit discards the redo branch: after one or more calls of
    [undo], the first mutation ([setCell], [fill] or [clearBoard]) that is not
    a no-op cuts the history down to [pointer + 1] entries, appends its
    snapshot and sets the pointer to the last index; the states that could be
    redone are gone, and a [redo] right after it changes nothing. *)
Theorem new_edit_discards_redo (s s1 : AppState) (k : nat) (op : Op) :
  history_ok s →
  run (replicate (S k) OpUndo) s = Some s1 →
  is_mutation op = true →
  is_noop op s1 = false →
  ∃ s2,
    step op s1 = Some s2 ∧
    history s2 = take (historyPointer s1 + 1) (history s1) ++ [cells s2] ∧
    length (history s2) = (historyPointer s1 + 2)%nat ∧
    historyPointer s2 = (length (history s2) - 1)%nat ∧
    redo s2 = Some s2.
Proof.
  intros Hok Hundo Hmut Hnoop.
  assert (history_ok s1) as Hok1 by eauto using run_history_ok.
  destruct (mutation_commits op s1 Hmut Hnoop) as [c Hstep].
  exists (commit s1 c). split_and!.
  - done.
  - by rewrite commit_history, commit_cells, Nat.add_1_r.
  - by apply commit_length.
  - apply commit_pointer_last.
  - apply redo_at_tip, commit_pointer_last.
Qed.

Lemma new_edit_discards_redo_witness :
  let s := setCell 1 1 (setCell 0 0 fresh3) in
  let s1 := set_travel s (cells (setCell 0 0 fresh3)) 1 in
  ∃ s2,
    step (OpSetCell 2 2) s1 = Some s2 ∧
    history s2 = take (historyPointer s1 + 1) (history s1) ++ [cells s2] ∧
    length (history s2) = (historyPointer s1 + 2)%nat ∧
    historyPointer s2 = (length (history s2) - 1)%nat ∧
    redo s2 = Some s2.
Proof.
  apply (new_edit_discards_redo (setCell 1 1 (setCell 0 0 fresh3)) _ 0).
  - split; [vm_compute; lia|vm_compute; reflexivity].
  - vm_compute. reflexivity.
  - reflexivity.
  - vm_compute. reflexivity.
Defined.



(** Rehydration by the [persist] middleware is not one of the calls above:
    [merge] replaces [cells] by the saved grid and keeps the history of the
    freshly created state, so a store rehydrated from a non-empty pattern
    starts with a snapshot at the pointer that is not the live grid. *)
Remark merge_keeps_fresh_history :
  let saved := partialize (setCell 0 0 (Store.initial_state 0)) in
  let s := merge saved (Store.initial_state 1) in
  cells s !! "0,0" = Some "red" ∧ history s = [∅] ∧
  historyPointer s = 0%nat.
Proof. by vm_compute. Qed.

(** ** Snapshots held by reference *)

Section references.
Import RefStore.
Implicit Types (h : Heap) (s : RefState).

Lemma alloc_spec (c : Grid) h :
  ((alloc c h).1 ∉ dom h) ∧ (alloc c h).2 = (<[(alloc c h).1 := c]> h).
Proof. split; [apply is_fresh|done]. Qed.

Lemma write_cell_alter l key v h :
  RefStore.write_cell l key v h = alter (Store.write_cell key v) l h.
Proof.
  unfold RefStore.write_cell, Store.write_cell, map_set, map_delete.
  destruct v as [v|]; [by case_decide|done].
Qed.

(** The loop writes to the object at [newCells] only, and what it leaves
    there is what the loop on grids computes from the contents. *)
Lemma fill_loop_refines fuel b target sel h l queue visited :
  l ∈ dom h →
  RefStore.fill_loop fuel b target sel h l queue visited
  = ((λ m, <[l := m]> h)
       <$> Store.fill_loop fuel b target sel (h !!! l) queue visited).
Proof.
  revert h queue visited.
  induction fuel as [|fuel IH]; intros h [|[x y] queue] visited Hl; simpl.
  - apply elem_of_dom in Hl as [m Hm].
    by rewrite (lookup_total_correct _ _ _ Hm), insert_id.
  - done.
  - apply elem_of_dom in Hl as [m Hm].
    by rewrite (lookup_total_correct _ _ _ Hm), insert_id.
  - unfold map_get.
    destruct (decide (makeKey x y ∈ visited)); [by apply IH|].
    destruct (out_of_bounds b x y); [by apply IH|].
    destruct (decide ((h !!! l) !! makeKey x y = target)); [|by apply IH].
    unfold map_set. rewrite IH by (rewrite dom_alter_L; done).
    pose proof Hl as [m0 Hm0]%elem_of_dom.
    rewrite !lookup_total_alt, lookup_alter_eq, Hm0. simpl.
    destruct (Store.fill_loop _ _ _ _ _ _ _); simpl; [|done].
    by rewrite insert_alter_eq.
Qed.

Lemma contents_history_alloc h s l (c : Grid) :
  l ∉ dom h → (∀ l', l' ∈ history s → l' ∈ dom h) →
  (λ l', <[l := c]> h !!! l') <$> push_history s l
  = take (S (historyPointer s)) ((λ l', h !!! l') <$> history s) ++ [c].
Proof.
  intros Hl Hhist. unfold push_history.
  rewrite fmap_app, <-fmap_take. simpl.
  rewrite lookup_total_insert_eq. f_equal.
  apply list_fmap_ext. intros i l' Hl'.
  apply lookup_total_insert_ne. intros ->. apply Hl, Hhist.
  eapply subseteq_take, list_elem_of_lookup_2, Hl'.
Qed.

(** Committing a new object with contents [c] is, for a reader, committing
    the grid [c]. *)
Lemma contents_commit h s l (c : Grid) :
  l ∉ dom h → (∀ l', l' ∈ history s → l' ∈ dom h) →
  contents (<[l := c]> h, commit s l) = commit (contents (h, s)) c.
Proof.
  intros Hl Hhist. unfold commit, contents, set_edit. simpl. f_equal.
  - by rewrite lookup_total_insert_eq.
  - by apply contents_history_alloc.
  - unfold push_history. simpl.
    by rewrite !length_app, !length_take, length_fmap.
Qed.

Lemma allocated_commit h s l (c : Grid) :
  allocated (h, s) → allocated (<[l := c]> h, commit s l).
Proof.
  intros [Hc Hhist]. split; simpl in *.
  - rewrite dom_insert_L. set_solver.
  - intros l' [Hl'%subseteq_take| ->%list_elem_of_singleton]%elem_of_app;
      rewrite dom_insert_L; set_solver.
Qed.

(** The reference-level [setCell] as one allocation. *)
Lemma ref_setCell_unfold x y h s :
  let l := fresh (dom h) in
  RefStore.setCell x y (h, s)
  = if decide ((h !!! cells s) !! makeKey x y = target_value s)
    then (h, s)
    else (<[l := Store.write_cell (makeKey x y) (target_value s)
                   (h !!! cells s)]> h,
          commit s l).
Proof.
  cbv zeta. unfold RefStore.setCell, map_get, alloc.
  case_decide; [done|].
  by rewrite write_cell_alter, alter_insert_eq.
Qed.

(** The reference-level [fill] as one allocation. *)
Lemma ref_fill_unfold x y h s :
  let l := fresh (dom h) in
  RefStore.fill x y (h, s)
  = if decide ((h !!! cells s) !! makeKey x y = Some (selectedColorId s))
    then Some (h, s)
    else m ← Store.fill_loop (fill_fuel (board s)) (board s)
               ((h !!! cells s) !! makeKey x y) (selectedColorId s)
               (h !!! cells s) [(x, y)] ∅;
         Some (<[l := m]> h, commit s l).
Proof.
  cbv zeta. unfold RefStore.fill, map_get, alloc.
  case_decide; [done|].
  rewrite fill_loop_refines by (rewrite dom_insert_L; set_solver).
  rewrite lookup_total_insert_eq.
  destruct (Store.fill_loop _ _ _ _ _ _ _); simpl; [|done].
  by rewrite insert_insert_eq.
Qed.

Lemma target_value_contents h s :
  target_value (contents (h, s)) = target_value s.
Proof. done. Qed.

(** Every call computes on references what it computes on grids. *)
Lemma step_refines op h s :
  allocated (h, s) →
  contents <$> RefStore.step op (h, s) = Store.step op (contents (h, s)) ∧
  (∀ σ', RefStore.step op (h, s) = Some σ' → allocated σ').
Proof.
  intros Halloc. pose proof Halloc as [Hc Hhist]. simpl in Hc, Hhist.
  pose proof (is_fresh (dom h)) as Hfresh.
  destruct op as [x y|x y| |id|tool|mode| | |pattern|uuid now];
    cbn [RefStore.step Store.step].
  - rewrite ref_setCell_unfold. unfold Store.setCell.
    rewrite target_value_contents. cbn [contents cells].
    case_decide.
    + split; [done|]. by intros ? [= <-].
    + split; [|intros ? [= <-]; by apply allocated_commit].
      simpl. f_equal. by apply contents_commit.
  - rewrite ref_fill_unfold. unfold Store.fill. cbn [contents cells selectedColorId board].
    case_decide.
    + split; [done|]. by intros ? [= <-].
    + destruct (Store.fill_loop _ _ _ _ _ _ _) as [m|]; simpl; [|done].
      split; [|intros ? [= <-]; by apply allocated_commit].
      f_equal. by apply contents_commit.
  - unfold RefStore.clearBoard, Store.clearBoard, alloc.
    split; [|intros ? [= <-]; by apply allocated_commit].
    simpl. f_equal. by apply contents_commit.
  - split; [done|]. by intros ? [= <-].
  - split; [done|]. by intros ? [= <-].
  - split; [done|]. by intros ? [= <-].
  - simpl. unfold undo. cbn [contents historyPointer history].
    case_decide.
    + rewrite list_lookup_fmap.
      destruct (history s !! (historyPointer s - 1)%nat) as [l|] eqn:Hl;
        simpl; [|done].
      split; [done|]. intros ? [= <-]. split; simpl; [|done].
      apply Hhist. by eapply list_elem_of_lookup_2.
    + split; [done|]. by intros ? [= <-].
  - simpl. unfold redo. cbn [contents historyPointer history].
    rewrite length_fmap. case_decide.
    + rewrite list_lookup_fmap.
      destruct (history s !! (historyPointer s + 1)%nat) as [l|] eqn:Hl;
        simpl; [|done].
      split; [done|]. intros ? [= <-]. split; simpl; [|done].
      apply Hhist. by eapply list_elem_of_lookup_2.
    + split; [done|]. by intros ? [= <-].
  - unfold RefStore.loadPattern, Store.loadPattern, alloc. split.
    + simpl. by rewrite lookup_total_insert_eq.
    + intros ? [= <-]. split; simpl.
      * rewrite dom_insert_L. set_solver.
      * intros l ->%list_elem_of_singleton. rewrite dom_insert_L. set_solver.
  - split; [done|]. by intros ? [= <-].
Qed.

Lemma initial_state_allocated now : allocated (RefStore.initial_state now).
Proof. split; vm_compute; set_solver. Qed.

Lemma initial_state_contents now :
  contents (RefStore.initial_state now) = Store.initial_state now.
Proof. reflexivity. Qed.

End references.

(** C8. No retroactive mutation: for each of the mutations ([setCell],
    [fill], [clearBoard]), every [Map] that existed before the call, the
    published [cells] among them, has the same contents after the call; a
    mutation that is not a no-op installs a [Map] that did not exist before
    (a fresh snapshot) and pushes it on the history, and a no-op leaves heap
    and state alone. *)
Theorem published_snapshots_unchanged
    (op : Op) (h : RefStore.Heap) (s : RefStore.RefState) :
  is_mutation op = true →
  RefStore.allocated (h, s) →
  ∃ h' s',
    RefStore.step op (h, s) = Some (h', s') ∧
    (∀ l, l ∈ dom h → h' !! l = h !! l) ∧
    h' !! cells s = h !! cells s ∧
    (is_noop op (RefStore.contents (h, s)) = true → (h', s') = (h, s)) ∧
    (is_noop op (RefStore.contents (h, s)) = false →
     (cells s' ∉ dom h) ∧ (cells s' ∈ dom h') ∧
     history s' = take (historyPointer s + 1) (history s) ++ [cells s']).
Proof.
  intros Hmut [Hc Hhist]. simpl in Hc, Hhist.
  pose proof (is_fresh (dom h)) as Hfresh.
  assert (∀ (c : Grid) l,
            l ∈ dom h → (<[fresh (dom h) := c]> h) !! l = h !! l) as Hframe.
  { intros c l Hl. apply lookup_insert_ne. by intros <-. }
  assert (∀ c : Grid, fresh (dom h) ∈ dom (<[fresh (dom h) := c]> h)) as Hnew.
  { intros c. rewrite dom_insert_L. set_solver. }
  destruct op as [x y|x y| | | | | | | |]; try done;
    cbn [RefStore.step is_noop].
  - rewrite ref_setCell_unfold, target_value_contents.
    cbn [RefStore.contents cells]. case_decide as Hnoop.
    + eexists _, _. split_and!; try done.
      intros Hfalse. by apply bool_decide_eq_false in Hfalse.
    + eexists _, _. split_and!; [done|by auto..| |].
      * intros Htrue. by apply bool_decide_eq_true in Htrue.
      * intros _. split_and!; [done|by auto|].
        by rewrite commit_history, Nat.add_1_r.
  - rewrite ref_fill_unfold.
    cbn [RefStore.contents cells selectedColorId]. case_decide as Hnoop.
    + eexists _, _. split_and!; try done.
      intros Hfalse. by apply bool_decide_eq_false in Hfalse.
    + destruct (fill_loop_start_fuel (board s)
                  ((h !!! cells s) !! makeKey x y) (selectedColorId s)
                  (h !!! cells s) (x, y)) as [m ->].
      simpl. eexists _, _. split_and!; [done|by auto..| |].
      * intros Htrue. by apply bool_decide_eq_true in Htrue.
      * intros _. split_and!; [done|by auto|].
        by rewrite commit_history, Nat.add_1_r.
  - unfold RefStore.clearBoard, RefStore.alloc.
    eexists _, _. split_and!; [done|by auto..|done|].
    intros _. split_and!; [done|by auto|].
    by rewrite commit_history, Nat.add_1_r.
Qed.

Lemma published_snapshots_unchanged_witness :
  let h := (RefStore.initial_state 0).1 in
  let s := (RefStore.initial_state 0).2 in
  ∃ h' s',
    RefStore.step (OpSetCell 0 0) (h, s) = Some (h', s') ∧
    (∀ l, l ∈ dom h → h' !! l = h !! l) ∧
    h' !! cells s = h !! cells s ∧
    (is_noop (OpSetCell 0 0) (RefStore.contents (h, s)) = true →
     (h', s') = (h, s)) ∧
    (is_noop (OpSetCell 0 0) (RefStore.contents (h, s)) = false →
     (cells s' ∉ dom h) ∧ (cells s' ∈ dom h') ∧
     history s' = take (historyPointer s + 1) (history s) ++ [cells s']).
Proof.
  apply (published_snapshots_unchanged (OpSetCell 0 0)
           (RefStore.initial_state 0).1 (RefStore.initial_state 0).2).
  - reflexivity.
  - split; vm_compute; set_solver.
Defined.

(** * Further properties of the store *)

(** ** Undo and redo as inverses *)

Section travel.
Implicit Types s : AppState.

Lemma commit_pointer_ok s (c : Grid) :
  history_ok s → historyPointer (commit s c) = S (historyPointer s).
Proof.
  intros [Hlt _]. rewrite commit_pointer, length_take_le; [done|lia].
Qed.

Lemma commit_lookup_old s (c : Grid) :
  history_ok s → history (commit s c) !! historyPointer s = Some (cells s).
Proof.
  intros [Hlt Hcur]. rewrite commit_history.
  rewrite lookup_app_l by (rewrite length_take_le; lia).
  by rewrite lookup_take_lt by lia.
Qed.

Lemma undo_commit s (c : Grid) :
  history_ok s →
  undo (commit s c)
  = Some (set_travel (commit s c) (cells s) (historyPointer s)).
Proof.
  intros Hok. unfold undo. rewrite commit_pointer_ok by done.
  rewrite decide_True by lia.
  replace (S (historyPointer s) - 1)%nat with (historyPointer s) by lia.
  by rewrite commit_lookup_old.
Qed.

Lemma redo_undo_commit s (c : Grid) :
  history_ok s →
  redo (set_travel (commit s c) (cells s) (historyPointer s))
  = Some (commit s c).
Proof.
  intros Hok. pose proof Hok as [Hlt Hcur]. unfold redo.
  cbn [set_travel set_edit historyPointer history].
  rewrite commit_length by done. rewrite decide_True by lia.
  rewrite commit_history, lookup_app_r by (rewrite length_take_le; lia).
  rewrite length_take_le by lia.
  replace (historyPointer s + 1 - S (historyPointer s))%nat with 0%nat by lia.
  simpl. f_equal. unfold set_travel, commit, set_edit. simpl. f_equal.
  unfold push_history. rewrite length_app, length_take_le by lia. simpl. lia.
Qed.

End travel.

(** X1. One [undo] takes back an edit: in a state that satisfies the history
    invariant, after a mutation that is not a no-op, [undo] restores the grid
    and the pointer of before, and a [redo] right after it gives back the
    state the edit had produced. *)
Theorem undo_takes_back_edit (s : AppState) (op : Op) :
  history_ok s →
  is_mutation op = true →
  is_noop op s = false →
  ∃ s1 s2,
    step op s = Some s1 ∧
    undo s1 = Some s2 ∧
    cells s2 = cells s ∧
    historyPointer s2 = historyPointer s ∧
    redo s2 = Some s1.
Proof.
  intros Hok Hmut Hnoop.
  destruct (mutation_commits op s Hmut Hnoop) as [c Hstep].
  exists (commit s c), (set_travel (commit s c) (cells s) (historyPointer s)).
  split_and!; [done|by apply undo_commit|done|done|by apply redo_undo_commit].
Qed.

Lemma undo_takes_back_edit_witness :
  ∃ s1 s2,
    step (OpFill 1 1) fresh3 = Some s1 ∧
    undo s1 = Some s2 ∧
    cells s2 = cells fresh3 ∧
    historyPointer s2 = historyPointer fresh3 ∧
    redo s2 = Some s1.
Proof.
  apply (undo_takes_back_edit fresh3 (OpFill 1 1)).
  - split; [simpl; lia|reflexivity].
  - reflexivity.
  - vm_compute. reflexivity.
Defined.

(** X2. [undo] and [redo] are inverse to each other away from the ends of
    the history: in a state that satisfies the history invariant, with the
    pointer above 0, [redo] after [undo] gives the state back; with the
    pointer below the last index, [undo] after [redo] gives the state back. *)
Theorem undo_redo_inverse (s : AppState) :
  history_ok s →
  ((0 < historyPointer s)%nat →
   ∃ s1, undo s = Some s1 ∧ s1 ≠ s ∧ redo s1 = Some s) ∧
  ((historyPointer s < length (history s) - 1)%nat →
   ∃ s1, redo s = Some s1 ∧ s1 ≠ s ∧ undo s1 = Some s).
Proof.
  intros [Hlt Hcur]. split; intros Hp.
  - destruct (lookup_lt_is_Some_2 (history s) (historyPointer s - 1))
      as [c Hc]; [lia|].
    exists (set_travel s c (historyPointer s - 1)). split_and!.
    + unfold undo. rewrite decide_True by done. by rewrite Hc.
    + intros Heq. apply (f_equal historyPointer) in Heq. simpl in Heq. lia.
    + unfold redo. cbn [set_travel set_edit historyPointer history].
      rewrite decide_True by lia.
      replace (historyPointer s - 1 + 1)%nat with (historyPointer s) by lia.
      rewrite Hcur. simpl. f_equal. by destruct s.
  - destruct (lookup_lt_is_Some_2 (history s) (historyPointer s + 1))
      as [c Hc]; [lia|].
    exists (set_travel s c (historyPointer s + 1)). split_and!.
    + unfold redo. rewrite decide_True by done. by rewrite Hc.
    + intros Heq. apply (f_equal historyPointer) in Heq. simpl in Heq. lia.
    + unfold undo. cbn [set_travel set_edit historyPointer history].
      rewrite decide_True by lia.
      replace (historyPointer s + 1 - 1)%nat with (historyPointer s) by lia.
      rewrite Hcur. simpl. f_equal. by destruct s.
Qed.

Lemma undo_redo_inverse_witness :
  let s := setCell 0 0 fresh3 in
  ((0 < historyPointer s)%nat →
   ∃ s1, undo s = Some s1 ∧ s1 ≠ s ∧ redo s1 = Some s) ∧
  ((historyPointer s < length (history s) - 1)%nat →
   ∃ s1, redo s = Some s1 ∧ s1 ≠ s ∧ undo s1 = Some s).
Proof.
  apply (undo_redo_inverse (setCell 0 0 fresh3)).
  split; [vm_compute; lia|vm_compute; reflexivity].
Defined.

(** X3. [clearBoard] has no early return: in a state that satisfies the
    history invariant it empties the grid and records a history step even
    when the grid is empty already (the history then has [pointer + 2]
    entries), and one [undo] brings the grid of before back. *)
Theorem clearBoard_records_a_step (s : AppState) :
  history_ok s →
  cells (clearBoard s) = ∅ ∧
  length (history (clearBoard s)) = (historyPointer s + 2)%nat ∧
  historyPointer (clearBoard s) = (historyPointer s + 1)%nat ∧
  clearBoard s ≠ s ∧
  ∃ s2, undo (clearBoard s) = Some s2 ∧ cells s2 = cells s ∧
        historyPointer s2 = historyPointer s.
Proof.
  intros Hok. unfold clearBoard. split_and!.
  - done.
  - by apply commit_length.
  - rewrite commit_pointer_ok by done. lia.
  - intros Heq. apply (f_equal historyPointer) in Heq.
    rewrite commit_pointer_ok in Heq by done. lia.
  - eexists. split; [by apply undo_commit|done].
Qed.

Lemma clearBoard_records_a_step_witness :
  cells (clearBoard fresh3) = ∅ ∧
  length (history (clearBoard fresh3)) = (historyPointer fresh3 + 2)%nat ∧
  historyPointer (clearBoard fresh3) = (historyPointer fresh3 + 1)%nat ∧
  clearBoard fresh3 ≠ fresh3 ∧
  ∃ s2, undo (clearBoard fresh3) = Some s2 ∧ cells s2 = cells fresh3 ∧
        historyPointer s2 = historyPointer fresh3.
Proof.
  apply (clearBoard_records_a_step fresh3).
  split; [simpl; lia|reflexivity].
Defined.

(** X4. Paint, then erase: on an empty cell, [setCell] with a tool other than
    the eraser and a non-empty colour, followed by [setCell] on the same
    position with the eraser, leaves a grid equal to the one before, and (in
    a state that satisfies the history invariant) two history steps. *)
Theorem paint_then_erase (s : AppState) (x y : Z) :
  history_ok s →
  cells s !! makeKey x y = None →
  activeTool s ≠ Eraser →
  selectedColorId s ≠ "" →
  let s1 := setCell x y s in
  let s2 := setCell x y (setTool Eraser s1) in
  cells s1 !! makeKey x y = Some (selectedColorId s) ∧
  cells s2 = cells s ∧
  historyPointer s2 = (historyPointer s + 2)%nat ∧
  length (history s2) = (historyPointer s + 3)%nat.
Proof.
  intros Hok Hnone Htool Hsel. cbv zeta.
  assert (setCell x y s
          = commit s (<[makeKey x y := selectedColorId s]> (cells s))) as Hs1.
  { rewrite setCell_commit, target_value_paint by
      (rewrite ?target_value_paint by done; congruence).
    unfold write_cell. by rewrite decide_False. }
  rewrite Hs1.
  assert (history_ok (commit s (<[makeKey x y := selectedColorId s]> (cells s))))
    as Hok1 by apply commit_history_ok.
  set (s1 := commit s _) in *.
  assert (history_ok (setTool Eraser s1)) as Hok1' by done.
  assert (cells s1 !! makeKey x y = Some (selectedColorId s)) as Hkey.
  { unfold s1. rewrite commit_cells. apply lookup_insert_eq. }
  assert (setCell x y (setTool Eraser s1)
          = commit (setTool Eraser s1) (delete (makeKey x y) (cells s1)))
    as Hs2.
  { rewrite setCell_commit; [done|].
    rewrite target_value_erase by done.
    change (cells (setTool Eraser s1)) with (cells s1). by rewrite Hkey. }
  rewrite Hs2. split_and!.
  - done.
  - rewrite commit_cells. unfold s1. rewrite commit_cells.
    by apply delete_insert_id.
  - rewrite commit_pointer_ok by done.
    change (historyPointer (setTool Eraser s1)) with (historyPointer s1).
    unfold s1. rewrite commit_pointer_ok by done. lia.
  - rewrite commit_length by done.
    change (historyPointer (setTool Eraser s1)) with (historyPointer s1).
    unfold s1. rewrite commit_pointer_ok by done. lia.
Qed.

Lemma paint_then_erase_witness :
  let s1 := setCell 2 1 fresh3 in
  let s2 := setCell 2 1 (setTool Eraser s1) in
  cells s1 !! makeKey 2 1 = Some (selectedColorId fresh3) ∧
  cells s2 = cells fresh3 ∧
  historyPointer s2 = (historyPointer fresh3 + 2)%nat ∧
  length (history s2) = (historyPointer fresh3 + 3)%nat.
Proof.
  apply (paint_then_erase fresh3 2 1).
  - split; [simpl; lia|reflexivity].
  - reflexivity.
  - discriminate.
  - discriminate.
Defined.

(** ** Persistence and loading *)

(** X5. What [partialize] saves, [merge] restores: rehydrating a fresh state
    from the saved part of a state [s] yields the grid and the metadata of
    [s]; the history, the pointer, the selection, the tool and the view are
    those of the fresh state (they are not persisted). *)
Theorem persist_round_trip (s current : AppState) :
  let r := merge (partialize s) current in
  cells r = cells s ∧
  metadata r = metadata s ∧
  history r = history current ∧
  historyPointer r = historyPointer current ∧
  selectedColorId r = selectedColorId current ∧
  activeTool r = activeTool current ∧
  viewMode r = viewMode current ∧
  board r = board current.
Proof.
  cbv zeta. unfold merge, partialize. simpl.
  by rewrite recordToMap_mapToRecord.
Qed.

(** X6. A rehydrated store does not remember the saved pattern in its
    history: after [merge] into the initial state the live grid is the saved
    one but the history still is the single empty snapshot, so the first
    edit followed by [undo] leaves an empty grid, not the saved pattern. *)
Theorem rehydrated_undo_empties_grid (saved : AppState) (now : Z) (op : Op) :
  let r := merge (partialize saved) (Store.initial_state now) in
  is_mutation op = true →
  is_noop op r = false →
  cells r = cells saved ∧
  history r = [∅] ∧
  ∃ r1 r2, step op r = Some r1 ∧ undo r1 = Some r2 ∧ cells r2 = ∅.
Proof.
  cbv zeta. intros Hmut Hnoop.
  destruct (mutation_commits op _ Hmut Hnoop) as [c Hstep].
  split_and!.
  - unfold merge, partialize. simpl. by rewrite recordToMap_mapToRecord.
  - done.
  - eexists _, _. split; [exact Hstep|]. split; reflexivity.
Qed.

Lemma rehydrated_undo_empties_grid_witness :
  let saved := setCell 0 0 (Store.initial_state 0) in
  let r := merge (partialize saved) (Store.initial_state 1) in
  cells r = cells saved ∧
  history r = [∅] ∧
  ∃ r1 r2, step (OpSetCell 1 1) r = Some r1 ∧ undo r1 = Some r2 ∧
           cells r2 = ∅.
Proof.
  apply (rehydrated_undo_empties_grid
           (setCell 0 0 (Store.initial_state 0)) 1 (OpSetCell 1 1)).
  - reflexivity.
  - vm_compute. reflexivity.
Defined.

(** X7. Loading is not undoable: after [loadPattern], any sequence of [undo]
    and [redo] calls leaves the state as [loadPattern] made it. *)
Theorem load_is_not_undoable (p : Pattern) (s : AppState) (ops : list Op) :
  Forall (λ op, op = OpUndo ∨ op = OpRedo) ops →
  run ops (loadPattern p s) = Some (loadPattern p s).
Proof.
  induction 1 as [|op ops [-> | ->] _ IH]; simpl; [done|done..].
Qed.

Lemma load_is_not_undoable_witness :
  let p := {| pattern_id := "p1";
              pattern_metadata := metadata (Store.initial_state 0);
              pattern_cells := [("0,0", "blue")] |} in
  let s := setCell 3 3 (Store.initial_state 0) in
  run [OpUndo; OpUndo; OpRedo] (loadPattern p s) = Some (loadPattern p s).
Proof.
  apply (load_is_not_undoable _ _ [OpUndo; OpUndo; OpRedo]).
  repeat first [apply Forall_nil_2 | apply Forall_cons_2; [by auto|]].
Defined.

(** X8. Load then export: for a pattern whose cell object has distinct keys,
    [exportPattern] after [loadPattern] yields the same cell entries (in
    some order) and the loaded title, author and difficulty; [id] and
    [created] are the fresh ones. *)
Theorem export_after_load (p : Pattern) (s : AppState) (uuid : string)
    (now : Z) :
  NoDup (pattern_cells p).*1 →
  let q := exportPattern uuid now (loadPattern p s) in
  pattern_cells q ≡ₚ pattern_cells p ∧
  title (pattern_metadata q) = title (pattern_metadata p) ∧
  author (pattern_metadata q) = author (pattern_metadata p) ∧
  difficulty (pattern_metadata q) = difficulty (pattern_metadata p) ∧
  created (pattern_metadata q) = now ∧
  pattern_id q = uuid.
Proof.
  intros Hnodup. cbv zeta. split_and!; try done.
  unfold exportPattern, loadPattern. simpl.
  by apply mapToRecord_recordToMap.
Qed.

Lemma export_after_load_witness :
  let p := {| pattern_id := "p1";
              pattern_metadata := metadata (Store.initial_state 0);
              pattern_cells := [("0,0", "blue"); ("foo", "red")] |} in
  let q := exportPattern "p2" 7 (loadPattern p (Store.initial_state 0)) in
  pattern_cells q ≡ₚ pattern_cells p ∧
  title (pattern_metadata q) = title (pattern_metadata p) ∧
  author (pattern_metadata q) = author (pattern_metadata p) ∧
  difficulty (pattern_metadata q) = difficulty (pattern_metadata p) ∧
  created (pattern_metadata q) = 7 ∧
  pattern_id q = "p2".
Proof.
  apply (export_after_load
           {| pattern_id := "p1";
              pattern_metadata := metadata (Store.initial_state 0);
              pattern_cells := [("0,0", "blue"); ("foo", "red")] |}
           (Store.initial_state 0) "p2" 7).
  simpl. apply (bool_decide_unpack _). vm_compute. reflexivity.
Defined.

(** ** More on [fill] *)

Section fill_more.
Implicit Types s : AppState.

(** What the loop leaves at a key: the old value, or the selected colour at
    the key of a position of the region. *)
Lemma fill_loop_lookup b (g : Grid) start sel m' k :
  in_bounds b start.1 start.2 →
  fill_loop (fill_fuel b) b (g !! key_of start) sel g [start] ∅ = Some m' →
  m' !! k = g !! k ∨
  (m' !! k = Some sel ∧ ∃ p, region b g start p ∧ k = key_of p).
Proof.
  intros Hin Hloop.
  destruct (fill_loop_inv b g start sel Hin _ _ _ _ _
              (fill_inv_init b g start sel Hin) Hloop)
    as (V & Hm & Hvis & _).
  rewrite Hm. destruct (decide (k ∈ V)) as [Hk|Hk]; [right|by left].
  split; [done|by apply Hvis].
Qed.

(** On a board whose cells all hold one colour, every cell is in the region
    of every start position. *)
Lemma region_uniform b (g : Grid) sx sy :
  in_bounds b sx sy →
  (∀ x y, in_bounds b x y → g !! makeKey x y = g !! makeKey sx sy) →
  ∀ x y, in_bounds b x y → region b g (sx, sy) (x, y).
Proof.
  intros Hs Huni.
  assert (∀ n x, Z.abs (x - sx) = Z.of_nat n → in_bounds b x sy →
                 region b g (sx, sy) (x, sy)) as Hrow.
  { induction n as [|n IH]; intros x Hn Hx.
    - assert (x = sx) as -> by lia. constructor.
    - destruct (decide (sx < x)).
      + apply (region_step b g (sx, sy) (x - 1, sy) (x, sy)).
        * apply IH; [lia|]. unfold in_bounds in *. lia.
        * left. simpl. f_equal. lia.
        * done.
        * by apply Huni.
      + apply (region_step b g (sx, sy) (x + 1, sy) (x, sy)).
        * apply IH; [lia|]. unfold in_bounds in *. lia.
        * right. left. simpl. f_equal. lia.
        * done.
        * by apply Huni. }
  assert (∀ n x y, Z.abs (y - sy) = Z.of_nat n → in_bounds b x y →
                   region b g (sx, sy) (x, y)) as Hcol.
  { induction n as [|n IH]; intros x y Hn Hxy.
    - assert (y = sy) as -> by lia.
      apply (Hrow (Z.to_nat (Z.abs (x - sx)))); [lia|done].
    - destruct (decide (sy < y)).
      + apply (region_step b g (sx, sy) (x, y - 1) (x, y)).
        * apply IH; [lia|]. unfold in_bounds in *. lia.
        * right. right. left. simpl. f_equal. lia.
        * done.
        * by apply Huni.
      + apply (region_step b g (sx, sy) (x, y + 1) (x, y)).
        * apply IH; [lia|]. unfold in_bounds in *. lia.
        * right. right. right. simpl. f_equal. lia.
        * done.
        * by apply Huni. }
  intros x y Hxy. apply (Hcol (Z.to_nat (Z.abs (y - sy)))); [lia|done].
Qed.

End fill_more.

(** X9. [fill] always returns: for every state and every start position, in
    or out of bounds, the loop ends within the [1 + 4·cols·rows] iterations
    granted to it. *)
Theorem fill_always_returns (s : AppState) (x y : Z) :
  ∃ m,
    fill_loop (fill_fuel (board s)) (board s) (cells s !! makeKey x y)
      (selectedColorId s) (cells s) [(x, y)] ∅ = Some m ∧
    (fill x y s = Some s ∨ fill x y s = Some (commit s m)).
Proof.
  destruct (fill_loop_start_fuel (board s) (cells s !! makeKey x y)
              (selectedColorId s) (cells s) (x, y)) as [m Hm].
  exists m. split; [done|]. unfold fill. case_decide; [by left|right].
  by rewrite Hm.
Qed.

(** X10. [fill] is idempotent: after [fill] at an in-bounds position, a
    second [fill] at the same position with the same colour returns early
    and changes nothing. *)
Theorem fill_twice (s : AppState) (x y : Z) :
  in_bounds (board s) x y →
  ∃ s1, fill x y s = Some s1 ∧ fill x y s1 = Some s1.
Proof.
  intros Hin. unfold fill at 1. case_decide as Hsame.
  { exists s. split; [done|]. unfold fill. by rewrite decide_True. }
  destruct (fill_loop_start_fuel (board s) (cells s !! makeKey x y)
              (selectedColorId s) (cells s) (x, y)) as [m Hm].
  rewrite Hm. simpl. exists (commit s m). split; [done|].
  destruct (fill_loop_correct (board s) (cells s) (x, y) (selectedColorId s)
              Hin m Hm) as [Hreg _].
  unfold fill. rewrite decide_True; [done|].
  rewrite commit_cells. apply (Hreg (x, y)). constructor.
Qed.

Lemma fill_twice_witness :
  ∃ s1, fill 1 1 fresh3 = Some s1 ∧ fill 1 1 s1 = Some s1.
Proof. apply (fill_twice fresh3 1 1). unfold in_bounds. simpl. lia. Defined.

(** X11. [fill] writes inside the board only and removes nothing: for every
    start position, each key of the resulting grid holds what it held
    before, or it is the key of an in-bounds position that held the colour
    of the start cell and now holds the selected colour. *)
Theorem fill_writes_inside_board (s : AppState) (x y : Z) :
  ∃ s',
    fill x y s = Some s' ∧
    (∀ k, cells s' !! k = cells s !! k ∨
          (cells s' !! k = Some (selectedColorId s) ∧
           cells s !! k = cells s !! makeKey x y ∧
           ∃ px py, in_bounds (board s) px py ∧ k = makeKey px py)) ∧
    dom (cells s) ⊆ dom (cells s').
Proof.
  assert (∀ s' : AppState,
    (∀ k, cells s' !! k = cells s !! k ∨
          (cells s' !! k = Some (selectedColorId s) ∧
           cells s !! k = cells s !! makeKey x y ∧
           ∃ px py, in_bounds (board s) px py ∧ k = makeKey px py)) →
    dom (cells s) ⊆ dom (cells s')) as Hdom.
  { intros s' Hk k [v Hv]%elem_of_dom. apply elem_of_dom.
    destruct (Hk k) as [->|[-> _]]; eauto. }
  destruct (decide (in_bounds (board s) x y)) as [Hin|Hout].
  - unfold fill. case_decide.
    { exists s. split; [done|]. split; [by left|done]. }
    destruct (fill_loop_start_fuel (board s) (cells s !! makeKey x y)
                (selectedColorId s) (cells s) (x, y)) as [m Hm].
    rewrite Hm. simpl. exists (commit s m).
    assert (∀ k, m !! k = cells s !! k ∨
          (m !! k = Some (selectedColorId s) ∧
           cells s !! k = cells s !! makeKey x y ∧
           ∃ px py, in_bounds (board s) px py ∧ k = makeKey px py)) as Hk.
    { intros k.
      destruct (fill_loop_lookup (board s) (cells s) (x, y)
                  (selectedColorId s) m k Hin Hm)
        as [?|[Hsel ([px py] & Hreg & ->)]]; [by left|right].
      destruct (region_same_colour (board s) (cells s) (x, y) Hin _ Hreg)
        as [Hpin Hcol].
      split_and!; [done|done|by exists px, py]. }
    split; [done|]. split; [done|by apply Hdom].
  - destruct (fill_out_of_bounds x y s Hout) as [Hf|Hf]; rewrite Hf.
    + exists s. split; [done|]. split; [by left|done].
    + eexists. split; [done|]. split; [by left|done].
Qed.

(** X12. On a board whose cells all hold one colour (an empty board, for
    one), [fill] at an in-bounds position leaves every cell of the board
    with the selected colour. *)
Theorem fill_uniform_board (s : AppState) (x y : Z) :
  in_bounds (board s) x y →
  (∀ px py, in_bounds (board s) px py →
            cells s !! makeKey px py = cells s !! makeKey x y) →
  ∃ s',
    fill x y s = Some s' ∧
    ∀ px py, in_bounds (board s) px py →
             cells s' !! makeKey px py = Some (selectedColorId s).
Proof.
  intros Hin Huni. unfold fill. case_decide as Hsame.
  { exists s. split; [done|]. intros px py Hp. by rewrite Huni. }
  destruct (fill_loop_start_fuel (board s) (cells s !! makeKey x y)
              (selectedColorId s) (cells s) (x, y)) as [m Hm].
  rewrite Hm. simpl. exists (commit s m). split; [done|].
  destruct (fill_loop_correct (board s) (cells s) (x, y) (selectedColorId s)
              Hin m Hm) as [Hreg _].
  intros px py Hp. rewrite commit_cells. apply (Hreg (px, py)).
  by apply region_uniform.
Qed.

Lemma fill_uniform_board_witness :
  ∃ s',
    fill 1 1 fresh3 = Some s' ∧
    ∀ px py, in_bounds (board fresh3) px py →
             cells s' !! makeKey px py = Some (selectedColorId fresh3).
Proof.
  apply (fill_uniform_board fresh3 1 1).
  - unfold in_bounds. simpl. lia.
  - intros px py _. reflexivity.
Defined.

(** ** More on the codec *)

(** X13. [makeKey] is injective: two positions have the same key exactly
    when they are the same position. *)
Theorem makeKey_injective (x1 y1 x2 y2 : Z) :
  makeKey x1 y1 = makeKey x2 y2 ↔ x1 = x2 ∧ y1 = y2.
Proof.
  split; [apply makeKey_inj|]. by intros [-> ->].
Qed.

(** X14. [parseKey] reads the first two comma-separated pieces and nothing
    else: whatever follows a second comma is ignored, and a string without a
    comma (here the rendering of one integer) yields [y] undefined. *)
Theorem parseKey_first_two_pieces (x y : Z) (rest : string) :
  parseKey (makeKey x y +:+ "," +:+ rest)
  = {| pt_x := Some (Int x); pt_y := Some (Int y) |} ∧
  parseKey (pretty x) = {| pt_x := Some (Int x); pt_y := None |}.
Proof.
  split.
  - unfold parseKey, makeKey.
    rewrite !string_app_assoc.
    change ("," +:+ pretty y +:+ "," +:+ rest)
      with (String ","%char (pretty y +:+ String ","%char rest)).
    rewrite split_app_sep by apply pretty_Z_no_comma.
    rewrite split_app_sep by apply pretty_Z_no_comma.
    simpl. by rewrite !Number_pretty.
  - unfold parseKey. rewrite split_no_sep by apply pretty_Z_no_comma.
    simpl. by rewrite Number_pretty.
Qed.

(** ** The views *)

Section views.
Import Ui.
Implicit Types (s : AppState) (v : View).

Lemma inside_true b x y : inside b x y = true ↔ in_bounds b x y.
Proof.
  unfold inside, in_bounds.
  rewrite !andb_true_iff, !Z.leb_le, !Z.ltb_lt. lia.
Qed.

Lemma grid_ok_empty b pal : grid_ok b pal ∅.
Proof. intros k v Hkv. by rewrite lookup_empty in Hkv. Qed.

Lemma grid_ok_write_cell b pal (g : Grid) x y newVal :
  grid_ok b pal g → in_bounds b x y →
  (∀ c, newVal = Some c → c ∈ color_id <$> pal) →
  grid_ok b pal (write_cell (makeKey x y) newVal g).
Proof.
  intros Hg Hin Hval k v Hkv.
  destruct (decide (k = makeKey x y)) as [->|Hk].
  - split; [by apply elem_of_all_keys|].
    unfold write_cell in Hkv. destruct newVal as [c|].
    + case_decide; [by rewrite lookup_delete_eq in Hkv|].
      rewrite lookup_insert_eq in Hkv. simplify_eq. by apply Hval.
    + by rewrite lookup_delete_eq in Hkv.
  - rewrite write_cell_other in Hkv by done. by apply Hg.
Qed.

Lemma grid_ok_fill_loop b pal (g : Grid) x y sel m :
  grid_ok b pal g → in_bounds b x y → sel ∈ color_id <$> pal →
  fill_loop (fill_fuel b) b (g !! makeKey x y) sel g [(x, y)] ∅ = Some m →
  grid_ok b pal m.
Proof.
  intros Hg Hin Hsel Hloop k v Hkv.
  destruct (fill_loop_lookup b g (x, y) sel m k Hin Hloop)
    as [Hold|[Hnew ([px py] & Hreg & ->)]].
  - apply Hg. by rewrite <-Hold.
  - rewrite Hnew in Hkv. simplify_eq. split; [|done].
    apply elem_of_all_keys.
    by destruct (region_same_colour b g (x, y) Hin _ Hreg).
Qed.

Lemma ui_ok_commit s (c : Grid) :
  ui_ok s → grid_ok (board s) (palette s) c → ui_ok (commit s c).
Proof.
  intros (Hok & Htool & Hsel & Hne & Hcells & Hhist) Hc.
  split_and!; try done.
  - apply commit_history_ok.
  - rewrite commit_history. apply Forall_app. split.
    + by apply Forall_take.
    + by apply Forall_singleton.
Qed.

Lemma ui_ok_setCell s x y :
  ui_ok s → in_bounds (board s) x y → ui_ok (setCell x y s).
Proof.
  intros Hok Hin. unfold setCell. case_decide; [done|].
  apply ui_ok_commit; [done|].
  destruct Hok as (_ & _ & Hsel & _ & Hcells & _).
  apply grid_ok_write_cell; [done..|].
  intros c Hc. unfold target_value in Hc. case_decide; by simplify_eq.
Qed.

Lemma ui_ok_fill s x y :
  ui_ok s → in_bounds (board s) x y →
  ∃ s', fill x y s = Some s' ∧ ui_ok s'.
Proof.
  intros Hok Hin. unfold fill. case_decide; [by eauto|].
  destruct (fill_loop_start_fuel (board s) (cells s !! makeKey x y)
              (selectedColorId s) (cells s) (x, y)) as [m Hm].
  rewrite Hm. simpl. eexists. split; [done|].
  apply ui_ok_commit; [done|].
  destruct Hok as (_ & _ & Hsel & _ & Hcells & _).
  by eapply grid_ok_fill_loop.
Qed.

Lemma ui_ok_travel s (c : Grid) n :
  ui_ok s → history s !! n = Some c → ui_ok (set_travel s c n).
Proof.
  intros (Hok & Htool & Hsel & Hne & Hcells & Hhist) Hc.
  split_and!; try done.
  - split; simpl; [by eapply lookup_lt_Some|done].
  - simpl. by eapply (Forall_lookup_1 _ _ _ _ Hhist).
Qed.

Lemma ui_ok_undo s : ui_ok s → ∃ s', undo s = Some s' ∧ ui_ok s'.
Proof.
  intros Hok. pose proof Hok as ([Hlt _] & _). unfold undo.
  case_decide; [|by eauto].
  destruct (lookup_lt_is_Some_2 (history s) (historyPointer s - 1))
    as [c Hc]; [lia|].
  rewrite Hc. simpl. eexists. split; [done|]. by apply ui_ok_travel.
Qed.

Lemma ui_ok_redo s : ui_ok s → ∃ s', redo s = Some s' ∧ ui_ok s'.
Proof.
  intros Hok. unfold redo. case_decide; [|by eauto].
  destruct (lookup_lt_is_Some_2 (history s) (historyPointer s + 1))
    as [c Hc]; [lia|].
  rewrite Hc. simpl. eexists. split; [done|]. by apply ui_ok_travel.
Qed.

Lemma ui_ok_handleInteract s x y :
  ui_ok s → ∃ s', handleInteract x y s = Some s' ∧ ui_ok s'.
Proof.
  intros Hok. unfold handleInteract.
  destruct (inside (board s) x y) eqn:Hin; [|by eauto].
  apply inside_true in Hin. case_decide.
  - by apply ui_ok_fill.
  - eexists. split; [done|]. by apply ui_ok_setCell.
Qed.

Lemma ui_ok_dispatch e v :
  ui_ok (store v) → ∃ v', dispatch e v = Some v' ∧ ui_ok (store v').
Proof.
  intros Hok. pose proof Hok as (Hh & Htool & Hsel & Hne & Hcells & Hhist).
  destruct e as [mode| | |type uuid now|uuid now|button| |index
                |button x y|x y| |col row]; simpl.
  - eauto.
  - destruct (ui_ok_undo _ Hok) as (s' & -> & Hs'). simpl. eauto.
  - destruct (ui_ok_redo _ Hok) as (s' & -> & Hs'). simpl. eauto.
  - eauto.
  - eauto.
  - case_bool_decide; [by eauto|]. eexists. split; [done|].
    split_and!; try done. by destruct button.
  - case_bool_decide; [by eauto|]. eexists. split; [done|].
    apply ui_ok_commit; [done|apply grid_ok_empty].
  - case_bool_decide; [by eauto|].
    destruct (palette (store v) !! index) as [color|] eqn:Hcolor;
      [|by eauto].
    eexists. split; [done|]. split_and!; try done. simpl.
    apply list_elem_of_fmap. exists color. split; [done|].
    by eapply list_elem_of_lookup_2.
  - case_bool_decide; [|by eauto]. unfold handlePointerDown.
    destruct (_ || _); [by eauto|].
    destruct (ui_ok_handleInteract _ x y Hok) as (s' & -> & Hs').
    simpl. eauto.
  - case_bool_decide; [|by eauto]. unfold handlePointerMove.
    destruct (negb _); [by eauto|]. destruct (_ || _); [|by eauto].
    destruct (ui_ok_handleInteract _ x y Hok) as (s' & -> & Hs').
    simpl. eauto.
  - case_bool_decide; eauto.
  - case_bool_decide; [|by eauto]. eexists. split; [done|].
    unfold scenePointerDown. simpl.
    destruct (inside (board (store v)) col row) eqn:Hin; [|done].
    apply ui_ok_setCell; [done|by apply inside_true].
Qed.

Lemma ui_ok_interact events v :
  ui_ok (store v) → ∃ v', interact events v = Some v' ∧ ui_ok (store v').
Proof.
  revert v. induction events as [|e events IH]; intros v Hok; simpl.
  { eauto. }
  destruct (ui_ok_dispatch e v Hok) as (v1 & -> & Hok1). simpl. eauto.
Qed.

Lemma ui_ok_initial now : ui_ok (store (initial_view now)).
Proof.
  split_and!.
  - apply initial_state_history_ok.
  - done.
  - apply (bool_decide_unpack _). by vm_compute.
  - apply (bool_decide_unpack _). by vm_compute.
  - apply grid_ok_empty.
  - apply Forall_singleton, grid_ok_empty.
Qed.

Lemma grid_ok_size b pal (g : Grid) :
  grid_ok b pal g → (size g ≤ Z.to_nat (cols b) * Z.to_nat (rows b))%nat.
Proof.
  intros Hg. rewrite <-size_dom. etrans; [|apply size_all_keys].
  apply subseteq_size. intros k [v Hv]%elem_of_dom. by apply (Hg k v).
Qed.

Lemma interact_app events1 events2 v :
  interact (events1 ++ events2) v = interact events1 v ≫= interact events2.
Proof.
  revert v. induction events1 as [|e events1 IH]; intros v; simpl; [done|].
  destruct (dispatch e v) as [v'|]; simpl; [apply IH|done].
Qed.

Lemma fill_board s x y s' : fill x y s = Some s' → board s' = board s.
Proof. unfold fill. intros Hfill. case_decide; by simplify_option_eq. Qed.

Lemma handleInteract_board s x y s' :
  handleInteract x y s = Some s' → board s' = board s.
Proof.
  unfold handleInteract. intros Hint.
  destruct (inside _ _ _); [|by simplify_eq].
  case_decide; [by eapply fill_board|]. simplify_eq.
  unfold setCell. by case_decide.
Qed.

(** No handler replaces the board. *)
Lemma dispatch_board e v v' :
  dispatch e v = Some v' → board (store v') = board (store v).
Proof.
  destruct e; simpl; intros He; repeat case_bool_decide;
    simplify_option_eq; try done.
  - unfold undo in *. case_decide; by simplify_option_eq.
  - unfold redo in *. case_decide; by simplify_option_eq.
  - by destruct (palette _ !! _); simplify_eq.
  - unfold handlePointerDown in He. destruct (_ || _); simplify_option_eq;
      [done|]. by eapply handleInteract_board.
  - unfold handlePointerMove in He. destruct (negb _); [by simplify_eq|].
    destruct (_ || _); simplify_option_eq; [|done].
    by eapply handleInteract_board.
  - unfold scenePointerDown. simpl. destruct (inside _ _ _); [|done].
    unfold setCell. by case_decide.
Qed.

Lemma interact_board events v v' :
  interact events v = Some v' → board (store v') = board (store v).
Proof.
  revert v. induction events as [|e events IH]; intros v Hrun;
    simpl in Hrun; simplify_option_eq; [done|].
  erewrite IH by done. by eapply dispatch_board.
Qed.

End views.

(** X15. The views guard the store: starting from the initial state, after
    any sequence of user events (view, undo, redo, export, tool, clear,
    colour, pointer events of the 2D editor and of the 3D scene) every entry
    of the grid sits at the key of an in-bounds position and holds the
    identifier of a palette colour, the selected colour is a palette
    identifier, the tool is never [line], and no handler fails. *)
Theorem views_keep_grid_in_bounds (now : Z) (events : list Ui.Event) :
  ∃ v,
    Ui.interact events (Ui.initial_view now) = Some v ∧
    let s := Ui.store v in
    (∀ k c, cells s !! k = Some c →
            (∃ x y, in_bounds (board s) x y ∧ k = makeKey x y) ∧
            c ∈ color_id <$> palette s) ∧
    (selectedColorId s ∈ color_id <$> palette s) ∧
    selectedColorId s ≠ "" ∧
    activeTool s ≠ Line.
Proof.
  destruct (ui_ok_interact events _ (ui_ok_initial now))
    as (v & Hrun & Hh & Htool & Hsel & Hne & Hcells & Hhist).
  exists v. split; [done|]. cbv zeta. split_and!; try done.
  - intros k c Hkc. destruct (Hcells k c Hkc) as [Hk Hc]. split; [|done].
    unfold all_keys in Hk.
    apply elem_of_list_to_set, list_elem_of_fmap in Hk
      as ([x y] & -> & Hxy).
    exists x, y. split; [|done]. by apply elem_of_all_positions.
  - intros Heq. by rewrite Heq in Hsel.
Qed.

(** X16. The grid never outgrows the board: after any sequence of user
    events from the initial state, the board still is the default 30×30
    board and the number of cells is at most [cols * rows] = 900, the
    instance count that the 3D scene allocates for its beads. *)
Theorem views_bound_cell_count (now : Z) (events : list Ui.Event) :
  ∃ v,
    Ui.interact events (Ui.initial_view now) = Some v ∧
    board (Ui.store v) = DEFAULT_BOARD ∧
    (size (cells (Ui.store v)) ≤ 30 * 30)%nat.
Proof.
  destruct (ui_ok_interact events _ (ui_ok_initial now))
    as (v & Hrun & Hh & Htool & Hsel & Hne & Hcells & Hhist).
  exists v. split; [done|].
  pose proof (interact_board _ _ _ Hrun) as Hboard. simpl in Hboard.
  split; [done|].
  pose proof (grid_ok_size _ _ _ Hcells) as Hsize.
  by rewrite Hboard in Hsize.
Qed.

(** X17. Dragging inside one cell adds nothing: after any sequence of user
    events from the initial state, a pointer-down of the 2D editor (any
    button but the middle one) followed by a pointer-move over the same grid
    position leaves the state as the pointer-down made it — no second
    history entry. *)
Theorem drag_within_cell_is_idempotent (now : Z) (events : list Ui.Event)
    (button gridX gridY : Z) :
  button ≠ 1 →
  ∃ v1,
    Ui.interact (events ++ [Ui.EditorPointerDown button gridX gridY])
      (Ui.initial_view now) = Some v1 ∧
    Ui.dispatch (Ui.EditorPointerMove gridX gridY) v1 = Some v1.
Proof.
  intros Hbutton.
  destruct (ui_ok_interact events _ (ui_ok_initial now)) as (v & Hrun & Hok).
  rewrite interact_app, Hrun. simpl.
  pose proof Hok as (Hh & Htool & Hsel & Hne & Hcells & Hhist).
  assert (selectedColorId (Ui.store v) ≠ "") as Hsel'.
  { intros Heq. by rewrite Heq in Hsel. }
  destruct v as [s drag]. simpl in *.
  case_bool_decide as Hview; simpl;
    [|eexists; split; [done|]; simpl; by rewrite bool_decide_false].
  unfold Ui.handlePointerDown. simpl.
  rewrite (bool_decide_false (button = 1)) by done.
  rewrite (bool_decide_false (activeTool s = Line)) by done. simpl.
  unfold Ui.handleInteract.
  destruct (Ui.inside (board s) gridX gridY) eqn:Hin; simpl.
  - case_decide as Hfill.
    + destruct (ui_ok_fill s gridX gridY Hok) as (s' & Hs' & _);
        [by apply inside_true|].
      rewrite Hs'. simpl. eexists. split; [done|].
      cbn [Ui.dispatch Ui.store].
      assert (viewMode s' = viewMode s ∧ activeTool s' = activeTool s)
        as [Hv Ht].
      { unfold fill in Hs'. case_decide; simplify_option_eq; done. }
      rewrite Hv, bool_decide_true by done.
      unfold Ui.handlePointerMove. simpl. rewrite Ht, Hfill. done.
    + eexists. split; [done|]. cbn [Ui.dispatch Ui.store].
      assert (viewMode (setCell gridX gridY s) = viewMode s ∧
              activeTool (setCell gridX gridY s) = activeTool s ∧
              board (setCell gridX gridY s) = board s) as (Hv & Ht & Hb).
      { unfold setCell. by case_decide. }
      rewrite Hv, bool_decide_true by done.
      unfold Ui.handlePointerMove. simpl. rewrite Ht.
      destruct (_ || _); [|done].
      unfold Ui.handleInteract. rewrite Hb, Hin, Ht.
      rewrite decide_False by done. simpl.
      rewrite setCell_twice; [done|].
      unfold target_value. case_decide; congruence.
  - eexists. split; [done|]. cbn [Ui.dispatch Ui.store].
    rewrite bool_decide_true by done.
    unfold Ui.handlePointerMove. simpl.
    destruct (_ || _); [|done].
    unfold Ui.handleInteract. by rewrite Hin.
Qed.

Lemma drag_within_cell_is_idempotent_witness :
  ∃ v1,
    Ui.interact ([Ui.ClickColor 4] ++ [Ui.EditorPointerDown 0 2 3])
      (Ui.initial_view 0) = Some v1 ∧
    Ui.dispatch (Ui.EditorPointerMove 2 3) v1 = Some v1.
Proof.
  apply (drag_within_cell_is_idempotent 0 [Ui.ClickColor 4] 0 2 3). lia.
Defined.

(** ** Sequences of calls on references *)

Section ref_runs.
Import RefStore.
Implicit Types (h : Heap) (s : RefState).

(** A call writes to no [Map] that exists already. *)
Lemma ref_step_frame op h s h' s' :
  RefStore.step op (h, s) = Some (h', s') →
  ∀ l, l ∈ dom h → h' !! l = h !! l.
Proof.
  pose proof (is_fresh (dom h)) as Hfresh.
  assert (∀ (c : Grid) l,
            l ∈ dom h → (<[fresh (dom h) := c]> h) !! l = h !! l) as Hframe.
  { intros c l Hl. apply lookup_insert_ne. by intros <-. }
  intros Hstep l Hl.
  destruct op as [x y|x y| |id|tool|mode| | |pattern|uuid now];
    cbn [RefStore.step] in Hstep.
  - rewrite ref_setCell_unfold in Hstep. case_decide; simplify_eq; auto.
  - rewrite ref_fill_unfold in Hstep. case_decide; simplify_option_eq; auto.
  - unfold RefStore.clearBoard, alloc in Hstep. simplify_eq. auto.
  - by simplify_eq.
  - by simplify_eq.
  - by simplify_eq.
  - by simplify_option_eq.
  - by simplify_option_eq.
  - unfold RefStore.loadPattern, alloc in Hstep. simplify_eq. auto.
  - by simplify_eq.
Qed.

Lemma ref_step_dom op h s h' s' :
  RefStore.step op (h, s) = Some (h', s') → dom h ⊆ dom h'.
Proof.
  intros Hstep l Hl. apply elem_of_dom.
  rewrite (ref_step_frame _ _ _ _ _ Hstep l Hl). by apply elem_of_dom.
Qed.

Lemma ref_step_total op h s :
  allocated (h, s) → history_ok (contents (h, s)) →
  ∃ σ', RefStore.step op (h, s) = Some σ' ∧ allocated σ' ∧
        history_ok (contents σ') ∧
        Store.step op (contents (h, s)) = Some (contents σ').
Proof.
  intros Halloc Hok.
  destruct (step_refines op h s Halloc) as [Href Hall].
  destruct (step_total op _ Hok) as [t Ht].
  rewrite Ht in Href.
  destruct (RefStore.step op (h, s)) as [σ'|]; [|done].
  simpl in Href. simplify_eq. exists σ'.
  split_and!; [done|by apply Hall|by eapply step_history_ok|done].
Qed.

End ref_runs.

(** X18. No sequence of calls rewrites a [Map]: on the store with
    references, from a state whose references are allocated and whose
    history invariant holds, every sequence of calls ([undo], [redo],
    [loadPattern] and the selections included) runs to the end, and every
    [Map] that existed at the start — the live grid, each history snapshot,
    anything a component still holds — has the contents it had. *)
Theorem maps_are_never_rewritten
    (ops : list Op) (h : RefStore.Heap) (s : RefStore.RefState) :
  RefStore.allocated (h, s) →
  history_ok (RefStore.contents (h, s)) →
  ∃ h' s',
    ref_run ops (h, s) = Some (h', s') ∧
    (∀ l, l ∈ dom h → h' !! l = h !! l) ∧
    run ops (RefStore.contents (h, s)) = Some (RefStore.contents (h', s')).
Proof.
  revert h s. induction ops as [|op ops IH]; intros h s Halloc Hok.
  { exists h, s. by split_and!. }
  destruct (ref_step_total op h s Halloc Hok)
    as ([h1 s1] & Hstep & Halloc1 & Hok1 & Hval).
  destruct (IH h1 s1 Halloc1 Hok1) as (h' & s' & Hrun & Hframe & Hvals).
  exists h', s'. cbn [ref_run run]. rewrite Hstep, Hval.
  split_and!; [done| |done].
  intros l Hl.
  rewrite Hframe by by eapply ref_step_dom.
  by eapply ref_step_frame.
Qed.

Lemma maps_are_never_rewritten_witness :
  let ops := [OpSetCell 0 0; OpUndo; OpRedo; OpClearBoard] in
  let h := (RefStore.initial_state 0).1 in
  let s := (RefStore.initial_state 0).2 in
  ∃ h' s',
    ref_run ops (h, s) = Some (h', s') ∧
    (∀ l, l ∈ dom h → h' !! l = h !! l) ∧
    run ops (RefStore.contents (h, s)) = Some (RefStore.contents (h', s')).
Proof.
  apply (maps_are_never_rewritten [OpSetCell 0 0; OpUndo; OpRedo; OpClearBoard]
           (RefStore.initial_state 0).1 (RefStore.initial_state 0).2).
  - split; vm_compute; set_solver.
  - split; [vm_compute; lia|vm_compute; reflexivity].
Defined.

(** ** The printable sheet *)

Section sheet.
Import Ui Pdf.

Lemma NoDup_list_prod {A B} (l1 : list A) (l2 : list B) :
  NoDup l1 → NoDup l2 → NoDup (list_prod l1 l2).
Proof.
  intros H1 H2. induction H1 as [|a l1 Ha _ IH]; simpl; [constructor|].
  apply NoDup_app. split_and!.
  - change (map (λ y, (a, y)) l2) with ((λ y, (a, y)) <$> l2).
    apply NoDup_fmap_2; [|done]. by intros ?? [= ->].
  - intros [a' b'] Hin1%list_elem_of_In Hin2%list_elem_of_In.
    apply in_map_iff in Hin1 as (b0 & [= <- <-] & _).
    apply in_prod_iff in Hin2 as [Hin2 _]. by apply list_elem_of_In in Hin2.
  - done.
Qed.

Lemma NoDup_all_positions b : NoDup (all_positions b).
Proof. apply NoDup_list_prod; apply NoDup_seqZ. Qed.

Lemma length_filter_fmap {A B} (f : A → B) (P : B → Prop)
    `{!∀ x, Decision (P x)} (l : list A) :
  length (filter P (f <$> l)) = length (filter (λ x, P (f x)) l).
Proof.
  induction l as [|x l IH]; [done|].
  rewrite fmap_cons, !filter_cons. case_decide; cbn [length]; by rewrite IH.
Qed.

(** [counts[id]] after the loop over the values: the number of values equal
    to [id], absent when there is none. *)
Lemma count_colors_go (values : list string) (acc : gmap string nat) id :
  foldl (λ counts c, <[c := S (default 0%nat (counts !! c))]> counts) acc
        values !! id
  = if decide (length (filter (λ c, c = id) values) = 0%nat)
    then acc !! id
    else Some (default 0%nat (acc !! id)
               + length (filter (λ c, c = id) values))%nat.
Proof.
  revert acc. induction values as [|c values IH]; intros acc; simpl; [done|].
  rewrite IH, filter_cons. destruct (decide (c = id)) as [->|Hc].
  - rewrite lookup_insert_eq. simpl.
    destruct (decide (length (filter (λ c, c = id) values) = 0%nat)) as [->|];
      f_equal; lia.
  - by rewrite lookup_insert_ne.
Qed.

Lemma count_colors_lookup (record : CellRecord) id :
  count_colors record !! id
  = match length (filter (λ kv, kv.2 = id) record) with
    | O => None
    | S n => Some (S n)
    end.
Proof.
  unfold count_colors. rewrite count_colors_go, lookup_empty.
  rewrite (length_filter_fmap snd (λ c, c = id)). simpl.
  by destruct (length _).
Qed.

Lemma find_color_Some pal id c :
  find_color pal id = Some c → c ∈ pal ∧ color_id c = id.
Proof.
  unfold find_color. intros Hfind.
  destruct (list_find _ pal) as [[i c']|] eqn:Hf; simplify_eq/=.
  apply list_find_Some in Hf as (Hi & Hid & _).
  split; [by eapply list_elem_of_lookup_2|done].
Qed.

Lemma find_color_unique pal c :
  NoDup (color_id <$> pal) → c ∈ pal →
  find_color pal (color_id c) = Some c.
Proof.
  intros Hnodup Hc. unfold find_color.
  destruct (list_find (λ c', color_id c' = color_id c) pal)
    as [[i c']|] eqn:Hf.
  - apply list_find_Some in Hf as (Hi & Hid & _). simpl. f_equal.
    apply list_elem_of_lookup_1 in Hc as [j Hj].
    assert (i = j) as ->; [|congruence].
    eapply (NoDup_lookup _ _ _ (color_id c) Hnodup);
      rewrite list_lookup_fmap; [by rewrite Hi; simpl; f_equal|by rewrite Hj].
  - apply list_find_None in Hf. rewrite Forall_forall in Hf.
    by destruct (Hf c Hc).
Qed.

(** A position carries a bead of colour [c] exactly when the cell object
    holds the identifier of [c] under the key of the position. *)
Lemma cell_mark_bead type record pal c x y :
  NoDup (color_id <$> pal) → c ∈ pal → color_id c ≠ "" →
  is_bead_of c (cell_mark type record pal x y) = true
  ↔ recordToMap record !! makeKey x y = Some (color_id c).
Proof.
  intros Hnodup Hc Hne. unfold cell_mark, record_get.
  destruct (recordToMap record !! makeKey x y) as [colorId|] eqn:Hget.
  - case_decide as Hempty.
    { subst colorId. split; [by destruct type|congruence]. }
    destruct (find_color pal colorId) as [color|] eqn:Hfind; simpl.
    + apply find_color_Some in Hfind as [Hin Hid].
      rewrite bool_decide_eq_true. split; [by intros ->; f_equal|].
      intros [= Heq]. pose proof (find_color_unique pal c Hnodup Hc) as Hu.
      pose proof (find_color_unique pal color Hnodup Hin) as Hu'.
      rewrite Hid, Heq in Hu'. congruence.
    + split; [done|]. intros [= ->].
      by rewrite find_color_unique in Hfind.
  - split; [by destruct type|done].
Qed.

(** With all keys on the board, the positions holding an identifier are as
    many as the entries holding it. *)
Lemma positions_count_entries b (record : CellRecord) id :
  NoDup record.*1 →
  (∀ k v, (k, v) ∈ record → k ∈ all_keys b) →
  length (filter (λ p, recordToMap record !! key_of p = Some id)
            (all_positions b))
  = length (filter (λ kv, kv.2 = id) record).
Proof.
  intros Hnodup Hkeys.
  rewrite <-(length_fmap (λ p, (key_of p, id))).
  apply Permutation_length, NoDup_Permutation.
  - apply NoDup_fmap_2.
    + intros p q [= Hpq]. by apply key_of_inj.
    + apply NoDup_filter, NoDup_all_positions.
  - apply NoDup_filter. by eapply NoDup_fmap_1.
  - intros [k v]. rewrite list_elem_of_fmap, list_elem_of_filter. split.
    + intros (p & [= -> ->] & [Hget _]%list_elem_of_filter).
      split; [done|]. by apply recordToMap_lookup.
    + simpl. intros [-> Hin]. pose proof (Hkeys _ _ Hin) as Hk.
      unfold all_keys in Hk.
      apply elem_of_list_to_set, list_elem_of_fmap in Hk as (p & -> & Hp).
      exists p. split; [done|]. apply list_elem_of_filter.
      split; [|done]. by apply recordToMap_lookup.
Qed.

Lemma bead_count_entries type b (record : CellRecord) pal c :
  NoDup record.*1 →
  (∀ k v, (k, v) ∈ record → k ∈ all_keys b) →
  NoDup (color_id <$> pal) → c ∈ pal → color_id c ≠ "" →
  bead_count c ((λ p, (p, cell_mark type record pal p.1 p.2))
                  <$> all_positions b)
  = length (filter (λ kv, kv.2 = color_id c) record).
Proof.
  intros Hnodup Hkeys Hpal Hc Hne. unfold bead_count.
  rewrite (length_filter_fmap _ (λ pm, is_bead_of c pm.2 = true)).
  rewrite <-(positions_count_entries b) by done. f_equal.
  apply list_filter_iff. intros [x y]. simpl.
  by apply cell_mark_bead.
Qed.

Lemma legend_entry (record : CellRecord) pal c n :
  NoDup (color_id <$> pal) → c ∈ pal →
  (c, n) ∈ omap (λ p, match count_colors record !! color_id p with
                       | Some (S n) => Some (p, S n)
                       | _ => None
                       end) pal
  ↔ (0 < n)%nat ∧ n = length (filter (λ kv, kv.2 = color_id c) record).
Proof.
  intros Hnodup Hc. rewrite list_elem_of_omap. split.
  - intros (p & Hp & Hentry). rewrite count_colors_lookup in Hentry.
    destruct (length (filter (λ kv, kv.2 = color_id p) record)) eqn:Hlen;
      simplify_eq. rewrite Hlen. split; [lia|done].
  - intros [Hpos ->]. exists c. split; [done|].
    rewrite count_colors_lookup. by destruct (length _); [lia|].
Qed.

Lemma dispatch_palette e v v' :
  dispatch e v = Some v' → palette (store v') = palette (store v).
Proof.
  assert (∀ x y s s', handleInteract x y s = Some s' →
                      palette s' = palette s) as Hint.
  { intros x y s s'. unfold handleInteract.
    destruct (inside _ _ _); [|by intros [= ->]].
    case_decide.
    - unfold fill. intros Hfill. case_decide; by simplify_option_eq.
    - intros [= <-]. unfold setCell. by case_decide. }
  destruct e; simpl; intros He; repeat case_bool_decide;
    simplify_option_eq; try done.
  - unfold undo in *. case_decide; by simplify_option_eq.
  - unfold redo in *. case_decide; by simplify_option_eq.
  - by destruct (palette _ !! _); simplify_eq.
  - unfold handlePointerDown in He. destruct (_ || _); simplify_option_eq;
      [done|]. by eapply Hint.
  - unfold handlePointerMove in He. destruct (negb _); [by simplify_eq|].
    destruct (_ || _); simplify_option_eq; [|done]. by eapply Hint.
  - unfold scenePointerDown. simpl. destruct (inside _ _ _); [|done].
    unfold setCell. by case_decide.
Qed.

Lemma interact_palette events v v' :
  interact events v = Some v' → palette (store v') = palette (store v).
Proof.
  revert v. induction events as [|e events IH]; intros v Hrun;
    simpl in Hrun; simplify_option_eq; [done|].
  erewrite IH by done. by eapply dispatch_palette.
Qed.

End sheet.

(** X19. The legend of the sheet agrees with the drawing: for a pattern
    whose cell keys are distinct keys of board positions, a palette with
    distinct identifiers, and colour identifiers that are not names
    inherited from [Object.prototype], a palette colour with a non-empty
    identifier is listed in the legend exactly when at least one bead of
    that colour is drawn, and then with the number of beads drawn. *)
Theorem legend_counts_beads_drawn (type : Ui.SheetType) (pattern : Pattern)
    (b : BoardSpec) (pal : list PaletteColor) (c : PaletteColor) :
  NoDup (pattern_cells pattern).*1 →
  (∀ k v, (k, v) ∈ pattern_cells pattern →
          ∃ x y, in_bounds b x y ∧ k = makeKey x y) →
  NoDup (color_id <$> pal) →
  Forall (λ id, id ∉ Pdf.inherited_names)
    ((pattern_cells pattern).*2 ++ (color_id <$> pal)) →
  c ∈ pal →
  color_id c ≠ "" →
  let sheet := Pdf.generatePDF pattern b pal type in
  ∃ entries,
    Pdf.sheet_legend sheet = Some entries ∧
    ∀ n, (c, n) ∈ entries ↔
         (0 < n)%nat ∧ n = Pdf.bead_count c (Pdf.sheet_marks sheet).
Proof.
  intros Hnodup Hkeys Hpal Hnames Hc Hne. cbv zeta.
  unfold Pdf.generatePDF. simpl. unfold Pdf.legend.
  rewrite bool_decide_true by done. eexists. split; [done|].
  intros n. rewrite legend_entry by done.
  rewrite (bead_count_entries type b) by
    (try done; intros k v (x & y & Hin & ->)%Hkeys; by apply elem_of_all_keys).
  done.
Qed.

Lemma legend_counts_beads_drawn_witness :
  let pattern := {| pattern_id := "p1";
                    pattern_metadata := metadata fresh3;
                    pattern_cells := [("0,0", "red"); ("1,2", "red");
                                      ("2,2", "blue")] |} in
  let c := mkColor "red" "Red" "#ef4444" in
  let sheet := Pdf.generatePDF pattern board3 DEFAULT_PALETTE Ui.Teacher in
  ∃ entries,
    Pdf.sheet_legend sheet = Some entries ∧
    ∀ n, (c, n) ∈ entries ↔
         (0 < n)%nat ∧ n = Pdf.bead_count c (Pdf.sheet_marks sheet).
Proof.
  apply (legend_counts_beads_drawn Ui.Teacher
           {| pattern_id := "p1"; pattern_metadata := metadata fresh3;
              pattern_cells := [("0,0", "red"); ("1,2", "red");
                                ("2,2", "blue")] |}
           board3 DEFAULT_PALETTE (mkColor "red" "Red" "#ef4444")).
  - simpl. apply (bool_decide_unpack _). vm_compute. reflexivity.
  - simpl. intros k v Hin.
    repeat (apply elem_of_cons in Hin as [[= -> ->]|Hin]);
      [exists 0, 0|exists 1, 2|exists 2, 2|by apply elem_of_nil in Hin];
      (split; [unfold in_bounds; simpl; lia|reflexivity]).
  - apply (bool_decide_unpack _). vm_compute. reflexivity.
  - apply (bool_decide_unpack _). vm_compute. reflexivity.
  - apply (bool_decide_unpack _). vm_compute. reflexivity.
  - discriminate.
Defined.

(** X20. The downloaded sheet shows the grid: after any sequence of user
    events from the initial state, [handleDownload] draws, at every board
    position, a bead of the palette colour whose identifier the cell holds,
    or the empty marker of the sheet type when the cell is empty; and the
    legend is defined. *)
Theorem downloaded_sheet_shows_grid (now : Z) (events : list Ui.Event)
    (type : Ui.SheetType) (uuid : string) (t : Z) :
  ∃ v,
    Ui.interact events (Ui.initial_view now) = Some v ∧
    let s := Ui.store v in
    let sheet := Pdf.handleDownload type uuid t s in
    is_Some (Pdf.sheet_legend sheet) ∧
    (∀ x y, in_bounds (board s) x y →
       ∃ mark, ((x, y), mark) ∈ Pdf.sheet_marks sheet ∧
         match cells s !! makeKey x y with
         | Some id => ∃ c outlined label,
             mark = Pdf.Bead c outlined label ∧ c ∈ palette s ∧
             color_id c = id
         | None =>
             mark = match type with
                    | Ui.Teacher => Pdf.Dot
                    | Ui.Kid => Pdf.Outline
                    end
         end).
Proof.
  destruct (ui_ok_interact events _ (ui_ok_initial now))
    as (v & Hrun & Hh & Htool & Hsel & Hne & Hcells & Hhist).
  exists v. split; [done|]. cbv zeta.
  pose proof (interact_palette _ _ _ Hrun) as Hpal. simpl in Hpal.
  unfold Pdf.handleDownload, Pdf.generatePDF, exportPattern. simpl.
  split.
  - unfold Pdf.legend. rewrite bool_decide_true; [done|].
    apply Forall_app. split.
    + apply Forall_forall. intros id Hid.
      apply list_elem_of_fmap in Hid as ([k id'] & -> & Hin).
      apply elem_of_map_to_list, Hcells in Hin as [_ Hin]. simpl.
      rewrite Hpal in Hin. revert id' Hin. apply Forall_forall.
      apply (bool_decide_unpack _). by vm_compute.
    + rewrite Hpal. apply (bool_decide_unpack _). by vm_compute.
  - intros x y Hin. eexists. split.
    { apply list_elem_of_fmap. exists (x, y).
      split; [done|by apply elem_of_all_positions]. }
    simpl. unfold Pdf.cell_mark, Pdf.record_get.
    rewrite recordToMap_mapToRecord.
    destruct (cells (Ui.store v) !! makeKey x y) as [id|] eqn:Hcell;
      [|done].
    destruct (Hcells _ _ Hcell) as [_ Hid].
    rewrite decide_False by (intros ->; done).
    apply list_elem_of_fmap in Hid as (c & -> & Hc).
    rewrite find_color_unique; [|rewrite Hpal|done].
    + by eexists _, _, _.
    + apply (bool_decide_unpack _). by vm_compute.
Qed.

(** ** The ends of the history *)

Section ends.
Implicit Types s : AppState.

Lemma undo_at_start_many k s :
  historyPointer s = 0%nat → run (replicate k OpUndo) s = Some s.
Proof.
  intros Hp. induction k as [|k IH]; simpl; [done|].
  unfold undo. rewrite decide_False by lia. done.
Qed.

Lemma redo_at_tip_many k s :
  historyPointer s = (length (history s) - 1)%nat →
  run (replicate k OpRedo) s = Some s.
Proof.
  intros Hp. induction k as [|k IH]; simpl; [done|].
  rewrite redo_at_tip by done. done.
Qed.

End ends.

(** X21. [undo] and [redo] stop at the ends of the history: in a state that
    satisfies the history invariant, at least [historyPointer] calls of
    [undo] (however many more) end on the first snapshot, and at least
    [history.length - 1 - historyPointer] calls of [redo] end on the last
    one; no call fails or wraps around, and the history is not changed. *)
Theorem undo_redo_stop_at_ends (s : AppState) (k : nat) :
  history_ok s →
  ((historyPointer s ≤ k)%nat →
   ∃ s1, run (replicate k OpUndo) s = Some s1 ∧
         historyPointer s1 = 0%nat ∧ history s1 = history s ∧
         history s !! 0%nat = Some (cells s1)) ∧
  ((length (history s) - 1 - historyPointer s ≤ k)%nat →
   ∃ s2, run (replicate k OpRedo) s = Some s2 ∧
         historyPointer s2 = (length (history s) - 1)%nat ∧
         history s2 = history s ∧
         history s !! (length (history s) - 1)%nat = Some (cells s2)).
Proof.
  intros Hok. pose proof Hok as [Hlt _]. split; intros Hk.
  - destruct (undo_many (historyPointer s) s Hok)
      as (s1 & Hrun & Hh & Hp & Hc); [lia|].
    rewrite Nat.sub_diag in Hp, Hc. exists s1.
    replace k with (historyPointer s + (k - historyPointer s))%nat by lia.
    rewrite replicate_add, run_app, Hrun. simpl.
    by rewrite undo_at_start_many.
  - destruct (redo_many (length (history s) - 1 - historyPointer s) s Hok)
      as (s2 & Hrun & Hh & Hp & Hc); [lia|].
    replace (historyPointer s + (length (history s) - 1 - historyPointer s))%nat
      with (length (history s) - 1)%nat in Hp, Hc by lia.
    exists s2.
    replace k with ((length (history s) - 1 - historyPointer s)
                    + (k - (length (history s) - 1 - historyPointer s)))%nat
      by lia.
    rewrite replicate_add, run_app, Hrun. simpl.
    rewrite redo_at_tip_many by (rewrite Hh; done). done.
Qed.

Lemma undo_redo_stop_at_ends_witness :
  let s := setCell 1 1 (setCell 0 0 fresh3) in
  ((historyPointer s ≤ 5)%nat →
   ∃ s1, run (replicate 5 OpUndo) s = Some s1 ∧
         historyPointer s1 = 0%nat ∧ history s1 = history s ∧
         history s !! 0%nat = Some (cells s1)) ∧
  ((length (history s) - 1 - historyPointer s ≤ 5)%nat →
   ∃ s2, run (replicate 5 OpRedo) s = Some s2 ∧
         historyPointer s2 = (length (history s) - 1)%nat ∧
         history s2 = history s ∧
         history s !! (length (history s) - 1)%nat = Some (cells s2)).
Proof.
  apply (undo_redo_stop_at_ends (setCell 1 1 (setCell 0 0 fresh3)) 5).
  split; [vm_compute; lia|vm_compute; reflexivity].
Defined.
